(** * Account storage of oc-chatgpt-multi-auth: a shallow embedding

    The storage module (selectNewestAccount, deduplicateAccounts,
    loadAccounts, saveAccounts, clearAccounts) is embedded over a model of
    the JavaScript values it inspects at run time.  A document read from
    disk is whatever JSON.parse returns, so accounts are kept as dynamic
    values and every run-time test of the source (truthiness, typeof,
    Array.isArray, strict equality, Number.isFinite) is written out.  The
    asynchronous functions become computations in a state-and-exception
    monad over a small file system with a log; a rejected promise is a
    thrown error.

    Layout: JavaScript values; the Map and Set of deduplicateAccounts;
    errors, the log and the file system; the rotation manager; the objects
    of the schema clean-up (tool-utils.ts) and the audit script
    (audit-dev-allowlist.js); sample data; the storage module and the
    schema clean-up themselves; then the lemmas, the main properties
    C1 to C10 and the further properties X1 to X29. *)

From Stdlib Require Import QArith Lqa DecimalString.
From stdpp Require Import base option list strings gmap.

Local Open Scope string_scope.
Local Open Scope list_scope.

(** ** JavaScript numbers

    A finite double is represented by the rational it denotes: the source
    only compares numbers and takes minima and maxima, which is exact on
    doubles.  The two zeros are not distinguished (they are equal, falsy and
    interchangeable for every operation used here). *)
Inductive number : Type :=
  | NaN
  | NegInfinity
  | Finite (q : Q)
  | PosInfinity.

Definition Qlt_bool (a b : Q) : bool :=
  match (a ?= b)%Q with Lt => true | _ => false end.

(** Number::lessThan of ECMAScript: [None] is the "undefined" answer that
    a NaN operand produces. *)
Definition Number_lessThan (x y : number) : option bool :=
  match x, y with
  | NaN, _ | _, NaN => None
  | _, NegInfinity => Some false
  | NegInfinity, _ => Some true
  | PosInfinity, _ => Some false
  | Finite _, PosInfinity => Some true
  | Finite a, Finite b => Some (Qlt_bool a b)
  end.

Definition Number_equal (x y : number) : bool :=
  match x, y with
  | NegInfinity, NegInfinity | PosInfinity, PosInfinity => true
  | Finite a, Finite b => Qeq_bool a b
  | _, _ => false
  end.

Definition Number_isFinite (x : number) : bool :=
  match x with Finite _ => true | _ => false end.

Definition Math_min (x y : number) : number :=
  match Number_lessThan y x with
  | None => NaN
  | Some true => y
  | Some false => x
  end.

Definition Math_max (x y : number) : number :=
  match Number_lessThan x y with
  | None => NaN
  | Some true => y
  | Some false => x
  end.

Definition number_of_Z (z : Z) : number := Finite (inject_Z z).

(** The order and equality of numbers as propositions. *)
Definition num_lt (x y : number) : Prop := Number_lessThan x y = Some true.
Definition num_le (x y : number) : Prop := Number_lessThan y x = Some false.
Definition num_eq (x y : number) : Prop := Number_equal x y = true.
Definition is_NaN (x : number) : bool := match x with NaN => true | _ => false end.

(** ** JavaScript values, as JSON.parse builds them *)
#[local] Set Warnings "-register-all".
Inductive JSValue : Type :=
  | JUndefined
  | JNull
  | JBool (b : bool)
  | JNumber (n : number)
  | JString (s : string)
  | JArray (items : list JSValue)
  | JObject (props : list (string * JSValue)).

(** ToBoolean: what [!x], [!!x] and [x || y] test. *)
Definition truthy (v : JSValue) : bool :=
  match v with
  | JUndefined | JNull => false
  | JBool b => b
  | JNumber NaN => false
  | JNumber (Finite q) => negb (Qeq_bool q 0)
  | JNumber _ => true
  | JString s => negb (String.eqb s "")
  | JArray _ | JObject _ => true
  end.

Definition js_or (a b : JSValue) : JSValue := if truthy a then a else b.

Definition typeof (v : JSValue) : string :=
  match v with
  | JUndefined => "undefined"
  | JNull | JArray _ | JObject _ => "object"
  | JBool _ => "boolean"
  | JNumber _ => "number"
  | JString _ => "string"
  end.

Definition Array_isArray (v : JSValue) : bool :=
  match v with JArray _ => true | _ => false end.

(** The own properties of a parsed object, each name once. *)
Fixpoint lookup_prop (name : string) (props : list (string * JSValue)) : JSValue :=
  match props with
  | [] => JUndefined
  | (k, v) :: rest => if String.eqb k name then v else lookup_prop name rest
  end.

(** [v.name] for a receiver that is neither null nor undefined.  Only plain
    objects carry the properties the source reads; on a primitive or an
    array the read gives undefined. *)
Definition getProp (v : JSValue) (name : string) : JSValue :=
  match v with
  | JObject props => lookup_prop name props
  | _ => JUndefined
  end.

(** Strict equality (===) and the SameValueZero test of Map keys.  Objects
    and arrays are compared by reference; every object of a parsed document
    is a fresh allocation, so two of them are never the same. *)
Definition strict_equals (a b : JSValue) : bool :=
  match a, b with
  | JUndefined, JUndefined | JNull, JNull => true
  | JBool x, JBool y => Bool.eqb x y
  | JNumber x, JNumber y => Number_equal x y
  | JString x, JString y => String.eqb x y
  | _, _ => false
  end.

Definition SameValueZero (a b : JSValue) : bool :=
  match a, b with
  | JNumber NaN, JNumber NaN => true
  | _, _ => strict_equals a b
  end.

(** ** Map<key, number> and Set<number>

    A JavaScript Map keeps its entries in insertion order and compares keys
    with SameValueZero; [Map_set] on a present key replaces the value in
    place. *)
Definition KeyMap : Type := list (JSValue * nat).

Fixpoint Map_get (key : JSValue) (m : KeyMap) : option nat :=
  match m with
  | [] => None
  | (k, v) :: rest => if SameValueZero k key then Some v else Map_get key rest
  end.

Fixpoint Map_set (key : JSValue) (value : nat) (m : KeyMap) : KeyMap :=
  match m with
  | [] => [(key, value)]
  | (k, v) :: rest =>
      if SameValueZero k key then (k, value) :: rest
      else (k, v) :: Map_set key value rest
  end.

Definition Map_values (m : KeyMap) : list nat := map snd m.

Definition Set_add (idx : nat) (s : gset nat) : gset nat := {[ idx ]} ∪ s.
Definition Set_has (s : gset nat) (idx : nat) : bool := bool_decide (idx ∈ s).

(** ** Object references

    [newest === account] in deduplicateAccounts compares references.  An
    account object is referred to by the slot of the array it was read from,
    paired with its value; distinct slots hold distinct objects, as they
    do in a parsed document. *)
Definition Ref : Type := nat * JSValue.

Definition slot (accounts : list JSValue) (i : nat) : option Ref :=
  match accounts !! i with
  | Some v => Some (i, v)
  | None => None
  end.

Definition same_ref (a b : Ref) : bool := Nat.eqb (fst a) (fst b).

(** ** Errors, log records and completions *)
Inductive JSError : Type :=
  | ErrnoException (code : string)   (* rejected fs call: error.code is set *)
  | SyntaxError                      (* JSON.parse on malformed text *)
  | TypeError.                       (* property read on null or undefined *)

Definition error_code (e : JSError) : option string :=
  match e with
  | ErrnoException code => Some code
  | SyntaxError | TypeError => None
  end.

Inductive LogEntry : Type :=
  | LogWarn (message : string) (version : option JSValue)
  | LogError (message : string) (error : JSError).

Inductive Completion (A : Type) : Type :=
  | Normal (value : A)
  | Throw (error : JSError).
Arguments Normal {A} value.
Arguments Throw {A} error.

(** ** The file system the module talks to

    Paths are lists of segments.  [faults] is the environment's say on each
    call: [Some code] makes the call reject with that errno code (permission
    denied, disk full, ...) before it touches anything. *)
Abbreviation path := (list string).

Inductive FsCall : Type :=
  | CallReadFile (p : path)
  | CallMkdir (p : path)
  | CallWriteFile (p : path)
  | CallUnlink (p : path).

Record World : Type := mkWorld {
  files : gmap path string;
  dirs : gset path;
  faults : FsCall -> option string;
  log : list LogEntry
}.

Definition IO (A : Type) : Type := World -> Completion A * World.

Definition io_ret {A} (a : A) : IO A := fun w => (Normal a, w).
Definition io_throw {A} (e : JSError) : IO A := fun w => (Throw e, w).
Definition io_bind {A B} (m : IO A) (k : A -> IO B) : IO B :=
  fun w =>
    match m w with
    | (Normal a, w') => k a w'
    | (Throw e, w') => (Throw e, w')
    end.
Definition try_catch {A} (body : IO A) (handler : JSError -> IO A) : IO A :=
  fun w =>
    match body w with
    | (Normal a, w') => (Normal a, w')
    | (Throw e, w') => handler e w'
    end.

#[global] Instance IO_ret : MRet IO := @io_ret.
#[global] Instance IO_bind : MBind IO := fun A B k m => io_bind m k.

Definition add_log (entry : LogEntry) (w : World) : World :=
  mkWorld (files w) (dirs w) (faults w) (log w ++ [entry]).

Definition log_warn (message : string) (version : option JSValue) : IO unit :=
  fun w => (Normal tt, add_log (LogWarn message version) w).
Definition log_error (message : string) (error : JSError) : IO unit :=
  fun w => (Normal tt, add_log (LogError message error) w).

Definition dirname (p : path) : path := removelast p.
Definition join (p : path) (segment : string) : path := (p ++ [segment])%list.

(** Every prefix of [p], [p] itself included: what a recursive mkdir makes. *)
Definition ancestors (p : path) : list path :=
  map (fun n => take n p) (seq 0 (S (length p))).

Definition fs_readFile (p : path) : IO string :=
  fun w =>
    match faults w (CallReadFile p) with
    | Some code => (Throw (ErrnoException code), w)
    | None =>
        match files w !! p with
        | Some content => (Normal content, w)
        | None => (Throw (ErrnoException "ENOENT"), w)
        end
    end.

Definition fs_mkdir_recursive (p : path) : IO unit :=
  fun w =>
    match faults w (CallMkdir p) with
    | Some code => (Throw (ErrnoException code), w)
    | None =>
        (Normal tt,
         mkWorld (files w) (list_to_set (ancestors p) ∪ dirs w) (faults w) (log w))
    end.

Definition fs_writeFile (p : path) (content : string) : IO unit :=
  fun w =>
    match faults w (CallWriteFile p) with
    | Some code => (Throw (ErrnoException code), w)
    | None =>
        if bool_decide (dirname p ∈ dirs w)
        then (Normal tt, mkWorld (<[p := content]> (files w)) (dirs w) (faults w) (log w))
        else (Throw (ErrnoException "ENOENT"), w)
    end.

Definition fs_unlink (p : path) : IO unit :=
  fun w =>
    match faults w (CallUnlink p) with
    | Some code => (Throw (ErrnoException code), w)
    | None =>
        match files w !! p with
        | Some _ => (Normal tt, mkWorld (delete p (files w)) (dirs w) (faults w) (log w))
        | None => (Throw (ErrnoException "ENOENT"), w)
        end
    end.

(** [v.name] with an arbitrary receiver: null and undefined throw. *)
Definition getMember (v : JSValue) (name : string) : IO JSValue :=
  match v with
  | JUndefined | JNull => io_throw TypeError
  | _ => io_ret (getProp v name)
  end.

Definition array_items (v : JSValue) : list JSValue :=
  match v with JArray items => items | _ => [] end.

Definition as_number (v : JSValue) : number :=
  match v with JNumber n => n | _ => NaN end.

(** The document loadAccounts hands back. *)
Record AccountStorageV1 : Type := mkStorage {
  version : number;
  accounts : list JSValue;
  activeIndex : number
}.

(** ** The rotation manager

    lib/accounts.ts is not among the sources at hand (only its test is), so
    the manager is written down from the specification's section 4.2, over
    the specification's account record with integer epoch-millisecond
    timestamps. *)
Module AccountManager.

Inductive SwitchReason : Type := SwitchRateLimit | SwitchInitial | SwitchRotation.
Inductive CooldownReason : Type := AuthFailure | NetworkError.

(** Modelled from the spec: the account record of section 3 (the class
    AccountManager and its record type are missing from the sources). *)
Record Account : Type := mkAccount {
  accountId : option string;
  refreshToken : string;
  addedAt : Z;
  lastUsed : Z;
  lastSwitchReason : option SwitchReason;
  rateLimitResetTime : option Z;
  coolingDownUntil : option Z;
  cooldownReason : option CooldownReason
}.

(** Modelled from the spec: the stored document handed to the constructor. *)
Record Document : Type := mkDocument {
  doc_accounts : list Account;
  doc_activeIndex : nat
}.

(** Modelled from the spec: the manager's in-memory state, "the live list
    of accounts and the active index". *)
Record Manager : Type := mkManager {
  accounts : list Account;
  activeIndex : nat
}.

(** Modelled from the spec: construction.  "If a document with >= 1
    account exists, adopt its accounts and activeIndex verbatim; else if a
    fallback credential exists, seed exactly one account record; else
    start with zero accounts". *)
Definition construct (now : Z) (fallbackRefresh : option string)
    (stored : option Document) : Manager :=
  match stored with
  | Some d =>
      match doc_accounts d with
      | _ :: _ => mkManager (doc_accounts d) (doc_activeIndex d)
      | [] =>
          match fallbackRefresh with
          | Some r => mkManager [mkAccount None r now now (Some SwitchInitial) None None None] 0
          | None => mkManager [] 0
          end
      end
  | None =>
      match fallbackRefresh with
      | Some r => mkManager [mkAccount None r now now (Some SwitchInitial) None None None] 0
      | None => mkManager [] 0
      end
  end.

(** Modelled from the spec: the availability predicate, "available iff
    (rateLimitResetTime is unset or now >= rateLimitResetTime) and
    (coolingDownUntil is unset or now >= coolingDownUntil)". *)
Definition unset_or_reached (now : Z) (t : option Z) : bool :=
  match t with
  | None => true
  | Some until => (until <=? now)%Z
  end.

Definition available (now : Z) (a : Account) : bool :=
  unset_or_reached now (rateLimitResetTime a) && unset_or_reached now (coolingDownUntil a).

Definition getAccountCount (m : Manager) : nat := length (accounts m).

Definition getCurrentAccount (m : Manager) : option Account :=
  accounts m !! activeIndex m.

(** Modelled from the spec: the indices visited by the rescan, "starting
    just after activeIndex, wrapping around". *)
Definition scanOrder (m : Manager) : list nat :=
  map (fun k => (activeIndex m + 1 + k) mod length (accounts m))%nat
      (seq 0 (length (accounts m))).

Definition firstAvailable (now : Z) (m : Manager) : option nat :=
  List.find (fun i => match accounts m !! i with
                      | Some a => available now a
                      | None => false
                      end) (scanOrder m).

Definition isRateLimited (now : Z) (a : Account) : bool :=
  negb (unset_or_reached now (rateLimitResetTime a)).

Definition activate (now : Z) (reason : SwitchReason) (a : Account) : Account :=
  mkAccount (accountId a) (refreshToken a) (addedAt a) now (Some reason)
            (rateLimitResetTime a) (coolingDownUntil a) (cooldownReason a).

(** What getCurrentOrNext yields: the account, the manager afterwards and
    whether the document was handed to the store for saving. *)
Record Selection : Type := mkSelection {
  selected : option Account;
  after : Manager;
  persisted : bool
}.

(** Modelled from the spec: the selection algorithm of getCurrentOrNext,
    steps 1 to 3. *)
Definition getCurrentOrNext (now : Z) (m : Manager) : Selection :=
  match accounts m with
  | [] => mkSelection None m false
  | _ :: _ =>
      let current := getCurrentAccount m in
      if match current with Some c => available now c | None => false end
      then mkSelection current m false
      else
        match firstAvailable now m with
        | Some i =>
            let reason :=
              if match current with Some c => isRateLimited now c | None => false end
              then SwitchRateLimit else SwitchRotation in
            let accounts' := alter (activate now reason) i (accounts m) in
            mkSelection (accounts' !! i) (mkManager accounts' i) true
        | None => mkSelection current m false
        end
  end.

(** Modelled from the spec: an account's remaining wait,
    "max(rateLimitResetTime or 0, coolingDownUntil or 0) - now, clamped
    at 0". *)
Definition remainingWait (now : Z) (a : Account) : Z :=
  Z.max 0 (Z.max (default 0%Z (rateLimitResetTime a)) (default 0%Z (coolingDownUntil a)) - now).

(** Modelled from the spec: getMinWaitTime, "if any account is currently
    available, returns 0; otherwise the smallest remaining wait across all
    accounts; on an empty list, returns 0". *)
Definition getMinWaitTime (now : Z) (m : Manager) : Z :=
  if existsb (available now) (accounts m) then 0%Z
  else
    match map (remainingWait now) (accounts m) with
    | [] => 0%Z
    | w :: ws => foldl Z.min w ws
    end.

End AccountManager.

(** ** Objects as the schema clean-up of tool-utils.ts uses them

    Own properties of objects and arrays, assignment to and deletion of a
    property, and the deep copy that JSON.parse(JSON.stringify(v)) makes.
    A property list is in the order JavaScript enumerates it; the names
    assigned here ("required", "properties", "items", "function",
    "parameters") are not array indices, so a new one goes to the end. *)
Definition index_name (i : nat) : string := NilZero.string_of_uint (Nat.to_uint i).

(** Object.prototype.hasOwnProperty.call(obj, name), for an object or an
    array (whose own properties are its indices and "length"). *)
Definition hasOwnProperty (obj : JSValue) (name : string) : bool :=
  match obj with
  | JObject props => existsb (String.eqb name) (map fst props)
  | JArray items =>
      String.eqb name "length"
      || existsb (fun i => String.eqb name (index_name i)) (seq 0 (length items))
  | _ => false
  end.

(** [Object.keys(v).length === 0] for a truthy [v]: a number or a boolean
    has no own enumerable keys, a string has its indices. *)
Definition Object_keys_empty (v : JSValue) : bool :=
  match v with
  | JObject [] | JArray [] => true
  | JObject _ | JArray _ => false
  | JString s => String.eqb s ""
  | _ => true
  end.

Fixpoint set_prop (name : string) (value : JSValue) (props : list (string * JSValue))
    : list (string * JSValue) :=
  match props with
  | [] => [(name, value)]
  | (k, v) :: rest =>
      if String.eqb k name then (k, value) :: rest else (k, v) :: set_prop name value rest
  end.

(** [obj.name = value] and [delete obj.name] on a plain object (the source
    applies them to nothing else). *)
Definition setProp (obj : JSValue) (name : string) (value : JSValue) : JSValue :=
  match obj with
  | JObject props => JObject (set_prop name value props)
  | _ => obj
  end.

Definition deleteProp (obj : JSValue) (name : string) : JSValue :=
  match obj with
  | JObject props => JObject (List.filter (fun p => negb (String.eqb (fst p) name)) props)
  | _ => obj
  end.

(** The values that [for (const key in v)] visits as [v[key]]. *)
Definition ownValues (v : JSValue) : list JSValue :=
  match v with
  | JObject props => map snd props
  | JArray items => items
  | _ => []
  end.

(** [for (const key in v) f(v[key])] where [f] updates the value in place. *)
Definition mapOwnValues (f : JSValue -> JSValue) (v : JSValue) : JSValue :=
  match v with
  | JObject props => JObject (map (fun p => (fst p, f (snd p))) props)
  | JArray items => JArray (map f items)
  | _ => v
  end.

(** JSON.parse(JSON.stringify(v)): a deep copy in which a property holding
    undefined is left out, undefined in an array becomes null, and NaN and
    the infinities become null. *)
Fixpoint JSON_clone (v : JSValue) : JSValue :=
  match v with
  | JNumber (Finite _) => v
  | JNumber _ => JNull
  | JArray items =>
      JArray (map (fun x => match x with JUndefined => JNull | _ => JSON_clone x end) items)
  | JObject props =>
      JObject (flat_map (fun p => match p with
                                  | (k, x) => match x with
                                              | JUndefined => []
                                              | _ => [(k, JSON_clone x)]
                                              end
                                  end) props)
  | _ => v
  end.

(** Nesting depth of a value; it bounds the recursion of cleanupSchema. *)
Fixpoint depth (v : JSValue) : nat :=
  match v with
  | JArray items => S (list_max (map depth items))
  | JObject props => S (list_max (map (fun p => depth (snd p)) props))
  | _ => 0
  end.

(** The object assigned to [schema.properties] for an empty object schema. *)
Definition placeholderSchema : JSValue :=
  JObject [("type", JString "boolean");
           ("description", JString "This property is a placeholder and should be ignored.")].
Definition placeholderProperties : JSValue :=
  JObject [("_placeholder", placeholderSchema)].

(** [truthy v && typeof v === "object"]: an object or an array. *)
Definition isObject (v : JSValue) : bool :=
  truthy v && String.eqb (typeof v) "object".

Fixpoint mapCompletion {A B} (f : A -> Completion B) (l : list A) : Completion (list B) :=
  match l with
  | [] => Normal []
  | x :: rest =>
      match f x with
      | Throw e => Throw e
      | Normal y =>
          match mapCompletion f rest with
          | Throw e => Throw e
          | Normal ys => Normal (y :: ys)
          end
      end
  end.

(** ** The audit script (scripts/audit-dev-allowlist.js)

    The script from the point where the output of npm audit has been
    parsed: the allowlist, summarizeVia, the loop that sorts the
    vulnerabilities into the unexpected and the allowlisted ones, and the
    report.  The part before (running npm, trimming its output, removing a
    byte order mark, JSON.parse) supplies [auditJson]. *)
Module AuditDevAllowlist.

Definition ALLOWED_HIGH_OR_CRITICAL_PACKAGES : gset string :=
  list_to_set
    [ "eslint";
      "ajv";
      "@eslint-community/eslint-utils";
      "@typescript-eslint/eslint-plugin";
      "@typescript-eslint/parser";
      "@typescript-eslint/type-utils";
      "@typescript-eslint/typescript-estree";
      "@typescript-eslint/utils";
      "minimatch" ].

(** The callback of [via.map]. *)
Definition summarizeItem (item : JSValue) : string :=
  match item with
  | JString s => s
  | _ =>
      if negb (truthy item) || negb (String.eqb (typeof item) "object") then "unknown"
      else
        let name := match getProp item "name" with JString s => s | _ => "unknown" end in
        let range := match getProp item "range" with JString s => s | _ => "" end in
        if negb (String.eqb range "") then name ++ ":" ++ range else name
  end.

Definition summarizeVia (via : JSValue) : list string :=
  if negb (Array_isArray via) then []
  else take 5 (map summarizeItem (array_items via)).

(** Object.entries of an object or an array. *)
Definition Object_entries (v : JSValue) : list (string * JSValue) :=
  match v with
  | JObject props => props
  | JArray items => imap (fun i x => (index_name i, x)) items
  | _ => []
  end.

Definition vulnerabilitiesOf (auditJson : JSValue) : JSValue :=
  if truthy auditJson && String.eqb (typeof auditJson) "object"
     && truthy (getProp auditJson "vulnerabilities")
     && String.eqb (typeof (getProp auditJson "vulnerabilities")) "object"
  then getProp auditJson "vulnerabilities"
  else JObject [].

Record Entry : Type := mkEntry {
  name : string;
  severity : string;
  via : list string;
  fixAvailable : JSValue
}.

(** The severity the loop reads off [details]. *)
Definition severityOf (details : JSValue) : string :=
  match getProp details "severity" with JString s => s | _ => "unknown" end.

(** The entry the loop builds for one vulnerability; [None] where it
    continues with the next one. *)
Definition entryOf (name : string) (details : JSValue) : option Entry :=
  if negb (truthy details) || negb (String.eqb (typeof details) "object") then None
  else
    let severity := severityOf details in
    if negb (String.eqb severity "high") && negb (String.eqb severity "critical") then None
    else
      Some (mkEntry name severity
              (summarizeVia (getProp details "via"))
              (match getProp details "fixAvailable" with
               | JUndefined | JNull => JBool false
               | v => v
               end)).

(** The two arrays of the loop. *)
Record Lists : Type := mkLists {
  unexpected : list Entry;
  allowlisted : list Entry
}.

Definition classifyStep (lists : Lists) (p : string * JSValue) : Lists :=
  match entryOf (fst p) (snd p) with
  | None => lists
  | Some entry =>
      if bool_decide (fst p ∈ ALLOWED_HIGH_OR_CRITICAL_PACKAGES)
      then mkLists (unexpected lists) (allowlisted lists ++ [entry])
      else mkLists (unexpected lists ++ [entry]) (allowlisted lists)
  end.

Definition classify (vulnerabilities : JSValue) : Lists :=
  foldl classifyStep (mkLists [] []) (Object_entries vulnerabilities).

(** What the script leaves behind: the console calls in order, and whether
    it called process.exit. *)
Inductive ConsoleCall : Type :=
  | console_error (line : string)
  | console_warn (line : string).

Inductive Termination : Type :=
  | ProcessExit (code : Z)
  | Completed.

Record Run : Type := mkRun {
  console : list ConsoleCall;
  termination : Termination
}.

(** A vulnerability the loop does not pass over: an object whose severity
    is "high" or "critical". *)
Definition highOrCritical (details : JSValue) : bool :=
  isObject details
  && (String.eqb (severityOf details) "high" || String.eqb (severityOf details) "critical").

Definition allowed (name : string) : bool :=
  bool_decide (name ∈ ALLOWED_HIGH_OR_CRITICAL_PACKAGES).

(** The loop as two passes over the entries: what it pushes on
    [unexpected] and on [allowlisted] for one of them. *)
Definition unexpectedOf (p : string * JSValue) : option Entry :=
  if allowed (fst p) then None else entryOf (fst p) (snd p).
Definition allowlistedOf (p : string * JSValue) : option Entry :=
  if allowed (fst p) then entryOf (fst p) (snd p) else None.

Section Report.

(** String(v) of the host. *)
Variable String_of : JSValue -> string.

(** [Array.prototype.join] on strings. *)
Definition join (sep : string) (items : list string) : string := String.concat sep items.

Definition describe (entry : Entry) : string :=
  "- " ++ name entry ++ " (" ++ severity entry ++ ") via "
  ++ (let joined := join ", " (via entry) in
      if String.eqb joined "" then "unknown" else joined)
  ++ " fixAvailable=" ++ String_of (fixAvailable entry).

Definition report (lists : Lists) : Run :=
  if negb (length (unexpected lists) =? 0)%nat
  then mkRun (console_error
                "Unexpected high/critical vulnerabilities detected in dev dependency audit:"
              :: map (fun entry => console_error (describe entry)) (unexpected lists))
             (ProcessExit 1)
  else if negb (length (allowlisted lists) =? 0)%nat
  then mkRun (console_warn "Allowlisted high/critical dev vulnerabilities detected:"
              :: map (fun entry => console_warn (describe entry)) (allowlisted lists)
              ++ [console_warn "No unexpected high/critical vulnerabilities found."])
             Completed
  else mkRun [] Completed.

(** The script from line 69 on. *)
Definition audit (auditJson : JSValue) : Run :=
  report (classify (vulnerabilitiesOf auditJson)).

End Report.

End AuditDevAllowlist.

(** ** Sample data

    Concrete records, documents and worlds on which the statements below are
    exercised. *)
Definition sample_account (id : option string) (token : string) (added used : Z) : JSValue :=
  JObject (match id with Some i => [("accountId", JString i)] | None => [] end
           ++ [("refreshToken", JString token);
               ("addedAt", JNumber (number_of_Z added));
               ("lastUsed", JNumber (number_of_Z used))]).

Definition sample_accounts : list JSValue :=
  [ sample_account (Some "acct-1") "token-a" 1 5;
    sample_account None "token-b" 2 2;
    sample_account (Some "acct-1") "token-c" 1 7;
    sample_account (Some "acct-1") "token-d" 1 7 ].

Definition sample_document (version : Z) (items : list JSValue) (index : JSValue) : JSValue :=
  JObject [("version", JNumber (number_of_Z version));
           ("accounts", JArray items);
           ("activeIndex", index)].

(** A record with an accountId and an empty refreshToken. *)
Definition sample_empty_token : JSValue := sample_account (Some "acct-1") "" 1 1.

Definition sample_home : path := ["home"; "user"].
Definition sample_path : path :=
  ["home"; "user"; ".opencode"; "openai-codex-accounts.json"].

(** A world whose storage file holds [text]; no call is rejected. *)
Definition sample_world (text : string) : World :=
  mkWorld {[ sample_path := text ]} ∅ (fun _ => None) [].

(** The same world with the file system rejecting some calls. *)
Definition sample_faulty_world (reject : FsCall -> option string) : World :=
  mkWorld {[ sample_path := "stored text" ]} ∅ reject [].

Definition reject_reads (call : FsCall) : option string :=
  match call with CallReadFile _ => Some "EACCES" | _ => None end.
Definition reject_writes (call : FsCall) : option string :=
  match call with CallWriteFile _ => Some "ENOSPC" | _ => None end.
Definition reject_unlinks (call : FsCall) : option string :=
  match call with CallUnlink _ => Some "EPERM" | _ => None end.

(** A world without the storage file and its directory. *)
Definition empty_world : World := mkWorld ∅ ∅ (fun _ => None) [].

(** A host whose JSON.parse reads the stored text as [doc]. *)
Definition sample_parse (doc : JSValue) : string -> option JSValue :=
  fun text => if String.eqb text "stored text" then Some doc else None.

(** An account of the rotation manager, added and last used at time 1000. *)
Definition sample_rotation_account (token : string) (reset : option Z) : AccountManager.Account :=
  AccountManager.mkAccount None token 1000 1000 None reset None None.

(** The two records of [sample_accounts] that deduplication keeps, and the
    document holding them with the second one active. *)
Definition sample_survivors : list JSValue :=
  [ sample_account None "token-b" 2 2; sample_account (Some "acct-1") "token-d" 1 7 ].

Definition sample_storage : AccountStorageV1 :=
  mkStorage (Finite 1) sample_survivors (Finite 1).

(** A host whose JSON.parse reads the stored text as [sample_storage], and
    whose JSON.stringify writes that text. *)
Definition sample_storage_parse : string -> option JSValue :=
  sample_parse (JObject [("version", JNumber (Finite 1));
                         ("accounts", JArray sample_survivors);
                         ("activeIndex", JNumber (Finite 1))]).
Definition sample_stringify : AccountStorageV1 -> nat -> string :=
  fun storage _ =>
    match accounts storage with
    | [] => "text of an empty document"
    | _ :: _ => "stored text"
    end.

(** A host comparison that answers "undefined" off the numbers. *)
Definition sample_lessThan : JSValue -> JSValue -> option bool := fun _ _ => None.

(** A host ToString, as far as the samples need it: they hold no number
    and no array where a string is asked for. *)
Definition sample_toString (v : JSValue) : string :=
  match v with
  | JUndefined => "undefined"
  | JNull => "null"
  | JBool true => "true"
  | JBool false => "false"
  | JString s => s
  | _ => "[object Object]"
  end.

(** An object schema whose required array names a property that is not
    defined, with a nested object schema that has no properties. *)
Definition sample_schema : JSValue :=
  JObject [("type", JString "object");
           ("description", JString "Arguments of the read tool");
           ("properties",
            JObject [("path", JObject [("type", JString "string")]);
                     ("options", JObject [("type", JString "object")])]);
           ("required", JArray [JString "path"; JString "mode"])].

(** An object schema without properties whose required array names one. *)
Definition sample_bare_schema : JSValue :=
  JObject [("type", JString "object"); ("required", JArray [JString "mode"])].

(** A function tool with [sample_schema] as its parameters. *)
Definition sample_tool : JSValue :=
  JObject [("type", JString "function");
           ("function", JObject [("name", JString "read"); ("parameters", sample_schema)])].

(** What cleanupToolDefinitions makes of [sample_tool]: "mode" is gone
    from required, and the nested object schema has the placeholder. *)
Definition sample_cleaned_tool : JSValue :=
  JObject
    [("type", JString "function");
     ("function",
      JObject
        [("name", JString "read");
         ("parameters",
          JObject
            [("type", JString "object");
             ("description", JString "Arguments of the read tool");
             ("properties",
              JObject
                [("path", JObject [("type", JString "string")]);
                 ("options",
                  JObject [("type", JString "object");
                           ("properties", placeholderProperties)])]);
             ("required", JArray [JString "path"])])])].

(** A parsed audit output with one vulnerability of severity "high" in the
    package [name], and one that reports an error instead. *)
Definition sample_audit (name : string) : JSValue :=
  JObject [("vulnerabilities",
            JObject [(name, JObject [("severity", JString "high");
                                     ("via", JArray [JString "ajv"])])])].
Definition sample_audit_error : JSValue :=
  JObject [("error", JObject [("code", JString "ENOLOCK")])].

(** ** The storage module *)
Section Host.

(** What the host supplies and the module's text does not fix:
    - the relational comparison on operands that are not both numbers
      (ECMAScript IsLessThan goes through ToPrimitive and ToNumber there;
      [None] is its "undefined" answer);
    - JSON.parse, [None] when it throws a SyntaxError;
    - JSON.stringify(value, null, indent);
    - os.homedir(). *)
Variable lessThanCoerced : JSValue -> JSValue -> option bool.
Variable JSON_parse : string -> option JSValue.
Variable JSON_stringify : AccountStorageV1 -> nat -> string.
Variable homedir : path.

Definition IsLessThan (x y : JSValue) : option bool :=
  match x, y with
  | JNumber a, JNumber b => Number_lessThan a b
  | _, _ => lessThanCoerced x y
  end.

(** [a > b], [a < b] and [a >= b]. *)
Definition js_gt (a b : JSValue) : bool :=
  match IsLessThan b a with Some r => r | None => false end.
Definition js_lt (a b : JSValue) : bool :=
  match IsLessThan a b with Some r => r | None => false end.
Definition js_ge (a b : JSValue) : bool :=
  match IsLessThan a b with Some r => negb r | None => false end.

Definition getConfigDir : path := join homedir ".opencode".
Definition getStoragePath : path := join getConfigDir "openai-codex-accounts.json".

Definition selectNewestAccount (current : option Ref) (candidate : Ref) : Ref :=
  match current with
  | None => candidate
  | Some current =>
      if negb (truthy (snd current)) then candidate else
      let currentLastUsed := js_or (getProp (snd current) "lastUsed") (JNumber (Finite 0)) in
      let candidateLastUsed := js_or (getProp (snd candidate) "lastUsed") (JNumber (Finite 0)) in
      if js_gt candidateLastUsed currentLastUsed then candidate else
      if js_lt candidateLastUsed currentLastUsed then current else
      let currentAddedAt := js_or (getProp (snd current) "addedAt") (JNumber (Finite 0)) in
      let candidateAddedAt := js_or (getProp (snd candidate) "addedAt") (JNumber (Finite 0)) in
      if js_ge candidateAddedAt currentAddedAt then candidate else current
  end.

(** [account.accountId || account.refreshToken] *)
Definition identityKey (account : JSValue) : JSValue :=
  js_or (getProp account "accountId") (getProp account "refreshToken").

(** Body of the first loop of deduplicateAccounts, at index [i]. *)
Definition scanStep (accounts : list JSValue) (keyToIndex : KeyMap) (i : nat) : KeyMap :=
  match accounts !! i with
  | None => keyToIndex
  | Some account =>
      if negb (truthy account) then keyToIndex else
      let key := identityKey account in
      if negb (truthy key) then keyToIndex else
      match Map_get key keyToIndex with
      | None => Map_set key i keyToIndex
      | Some existingIndex =>
          let existing := slot accounts existingIndex in
          let newest := selectNewestAccount existing (i, account) in
          Map_set key (if same_ref newest (i, account) then i else existingIndex) keyToIndex
      end
  end.

(** Body of the last loop: push accounts[i] when its index is kept. *)
Definition collectStep (accounts : list JSValue) (indicesToKeep : gset nat)
    (result : list JSValue) (i : nat) : list JSValue :=
  if Set_has indicesToKeep i then
    match accounts !! i with
    | Some account => if truthy account then (result ++ [account])%list else result
    | None => result
    end
  else result.

Definition deduplicateAccounts (accounts : list JSValue) : list JSValue :=
  let keyToIndex := foldl (scanStep accounts) [] (seq 0 (length accounts)) in
  let indicesToKeep := foldl (fun s idx => Set_add idx s) ∅ (Map_values keyToIndex) in
  foldl (collectStep accounts indicesToKeep) [] (seq 0 (length accounts)).

(** The predicate handed to [data.accounts.filter]. *)
Definition validAccount (account : JSValue) : bool :=
  truthy account && String.eqb (typeof (getProp account "refreshToken")) "string".

Definition loadAccounts : IO (option AccountStorageV1) :=
  try_catch
    (let path := getStoragePath in
     content ← fs_readFile path;
     data ← match JSON_parse content with
            | Some v => io_ret v
            | None => io_throw SyntaxError
            end;
     data_accounts ← getMember data "accounts";
     if negb (Array_isArray data_accounts) then
       _ ← log_warn "Invalid storage format, ignoring" None;
       mret None
     else
     if negb (strict_equals (getProp data "version") (JNumber (Finite 1))) then
       _ ← log_warn "Unknown storage version, ignoring" (Some (getProp data "version"));
       mret None
     else
     let validAccounts := List.filter validAccount (array_items data_accounts) in
     let deduplicatedAccounts := deduplicateAccounts validAccounts in
     let activeIndex :=
       if String.eqb (typeof (getProp data "activeIndex")) "number"
          && Number_isFinite (as_number (getProp data "activeIndex"))
       then as_number (getProp data "activeIndex")
       else Finite 0 in
     let activeIndex :=
       if (0 <? length deduplicatedAccounts)%nat
       then Math_max (Finite 0)
              (Math_min activeIndex
                 (number_of_Z (Z.of_nat (length deduplicatedAccounts) - 1)))
       else Finite 0 in
     mret (Some (mkStorage (Finite 1) deduplicatedAccounts activeIndex)))
    (fun error =>
       let code := error_code error in
       if bool_decide (code = Some "ENOENT") then mret None
       else
         _ ← log_error "Failed to load account storage" error;
         mret None).

Definition saveAccounts (storage : AccountStorageV1) : IO unit :=
  let path := getStoragePath in
  _ ← fs_mkdir_recursive (dirname path);
  let content := JSON_stringify storage 2 in
  fs_writeFile path content.

Definition clearAccounts : IO unit :=
  try_catch
    (let path := getStoragePath in
     fs_unlink path)
    (fun error =>
       let code := error_code error in
       if negb (bool_decide (code = Some "ENOENT")) then
         log_error "Failed to clear account storage" error
       else mret tt).

(** *** tool-utils.ts *)

(** ToString of a value that is not a string, as it happens when such a
    value is used as a property name. *)
Variable toStringCoerced : JSValue -> string.

Definition propertyKey (key : JSValue) : string :=
  match key with
  | JString s => s
  | _ => toStringCoerced key
  end.

(** Step 1 of cleanupSchema: filter the 'required' array. *)
Definition filterRequired (schema : JSValue) : JSValue :=
  if Array_isArray (getProp schema "required") && isObject (getProp schema "properties")
  then
    let properties := getProp schema "properties" in
    let required := array_items (getProp schema "required") in
    let validRequired :=
      List.filter (fun key => hasOwnProperty properties (propertyKey key)) required in
    if (length validRequired =? 0)%nat then deleteProp schema "required"
    else if negb (length validRequired =? length required)%nat
         then setProp schema "required" (JArray validRequired)
         else schema
  else schema.

(** Step 2: give an object schema without properties a placeholder. *)
Definition injectPlaceholder (schema : JSValue) : JSValue :=
  if strict_equals (getProp schema "type") (JString "object")
     && (negb (truthy (getProp schema "properties"))
         || Object_keys_empty (getProp schema "properties"))
  then setProp schema "properties" placeholderProperties
  else schema.

(** cleanupSchema with a bound on the recursion depth. *)
Fixpoint cleanupSchema_fuel (fuel : nat) (schema : JSValue) : JSValue :=
  match fuel with
  | O => schema
  | S fuel' =>
      if negb (isObject schema) then schema else
      let schema := filterRequired schema in
      let schema := injectPlaceholder schema in
      let schema :=
        if isObject (getProp schema "properties")
        then setProp schema "properties"
               (mapOwnValues (cleanupSchema_fuel fuel') (getProp schema "properties"))
        else schema in
      let schema :=
        if isObject (getProp schema "items")
        then setProp schema "items" (cleanupSchema_fuel fuel' (getProp schema "items"))
        else schema in
      schema
  end.

(** The recursion of the source goes no deeper than the schema is nested
    (see [cleanupSchema_equation]). *)
Definition cleanupSchema (schema : JSValue) : JSValue :=
  cleanupSchema_fuel (depth schema) schema.

(** The callback of [tools.map]. *)
Definition cleanupTool (tool : JSValue) : Completion JSValue :=
  if negb (strict_equals (getProp tool "type") (JString "function"))
     || negb (truthy (getProp tool "function"))
  then Normal tool
  else
    let cleanedTool := JSON_clone tool in
    match getProp cleanedTool "function" with
    | JUndefined | JNull => Throw TypeError
    | function =>
        if truthy (getProp function "parameters")
        then Normal (setProp cleanedTool "function"
                       (setProp function "parameters"
                          (cleanupSchema (getProp function "parameters"))))
        else Normal cleanedTool
    end.

Definition cleanupToolDefinitions (tools : JSValue) : Completion JSValue :=
  if negb (Array_isArray tools) then Normal tools
  else
    match mapCompletion cleanupTool (array_items tools) with
    | Throw e => Throw e
    | Normal cleaned => Normal (JArray cleaned)
    end.

(** [t] is the schema [root] or a schema nested in it: a value of a
    properties object, or an items member, at any depth. *)
Inductive nestedSchema (root : JSValue) : JSValue -> Prop :=
  | nested_root : nestedSchema root root
  | nested_property s t :
      nestedSchema root s -> isObject (getProp s "properties") = true ->
      t ∈ ownValues (getProp s "properties") -> nestedSchema root t
  | nested_items s :
      nestedSchema root s -> isObject (getProp s "items") = true ->
      nestedSchema root (getProp s "items").

(** The body of cleanupSchema with its recursive calls made through [rec]. *)
Definition cleanupBody (rec : JSValue -> JSValue) (schema : JSValue) : JSValue :=
  if negb (isObject schema) then schema else
  let schema := filterRequired schema in
  let schema := injectPlaceholder schema in
  let schema :=
    if isObject (getProp schema "properties")
    then setProp schema "properties" (mapOwnValues rec (getProp schema "properties"))
    else schema in
  let schema :=
    if isObject (getProp schema "items")
    then setProp schema "items" (rec (getProp schema "items"))
    else schema in
  schema.

(** The values on which the body calls itself: the values of the
    properties member as steps 1 and 2 leave it, and the items member. *)
Definition recursionTarget (schema c : JSValue) : Prop :=
  c ∈ ownValues (getProp (injectPlaceholder (filterRequired schema)) "properties")
  \/ c = getProp schema "items".

Definition isPlainObject (v : JSValue) : bool :=
  match v with JObject _ => true | _ => false end.


(** A function tool: what the callback of cleanupToolDefinitions rewrites. *)
Definition isFunctionTool (tool : JSValue) : bool :=
  strict_equals (getProp tool "type") (JString "function") && truthy (getProp tool "function").

(** *** Vocabulary of the statements below *)

(** The outcome of the read that loadAccounts starts with. *)
Definition readOutcome (w : World) : Completion string :=
  fst (fs_readFile getStoragePath w).

(** The document loadAccounts builds from parsed [data] once the format
    and version checks have passed. *)
Definition acceptedDocument (data : JSValue) : AccountStorageV1 :=
  let deduplicatedAccounts :=
    deduplicateAccounts (List.filter validAccount (array_items (getProp data "accounts"))) in
  let stored := getProp data "activeIndex" in
  let activeIndex :=
    if String.eqb (typeof stored) "number" && Number_isFinite (as_number stored)
    then as_number stored else Finite 0 in
  mkStorage (Finite 1) deduplicatedAccounts
    (if (0 <? length deduplicatedAccounts)%nat
     then Math_max (Finite 0)
            (Math_min activeIndex (number_of_Z (Z.of_nat (length deduplicatedAccounts) - 1)))
     else Finite 0).

(** A stored activeIndex that can be read: a finite number. *)
Definition readableIndex (v : JSValue) : bool :=
  match v with JNumber (Finite _) => true | _ => false end.

(** Two identity keys are the same key of the Map. *)
Definition keyEq (k k' : JSValue) : Prop := SameValueZero k k' = true.

(** An account that the first loop records: truthy, with a truthy key. *)
Definition usable (account : JSValue) : bool :=
  truthy account && truthy (identityKey account).

(** The state of keyToIndex after the first [n] iterations. *)
Definition scanned (accounts : list JSValue) (n : nat) : KeyMap :=
  foldl (scanStep accounts) [] (seq 0 n).

Definition indicesToKeep (accounts : list JSValue) : gset nat :=
  foldl (fun s idx => Set_add idx s) ∅
        (Map_values (scanned accounts (length accounts))).

(** The elements of [l] whose position, counted from [start], and value
    pass [P], in their order in [l]. *)
Fixpoint keepAt (P : nat -> JSValue -> bool) (start : nat) (l : list JSValue)
    : list JSValue :=
  match l with
  | [] => []
  | x :: rest =>
      if P start x then x :: keepAt P (S start) rest else keepAt P (S start) rest
  end.

(** Position [i], holding [a], is pushed onto the result by the last loop. *)
Definition survives (l : list JSValue) (i : nat) (a : JSValue) : bool :=
  Set_has (indicesToKeep l) i && truthy a.

(** A timestamp is a number other than NaN. *)
Definition is_timestamp (v : JSValue) : bool :=
  match v with JNumber n => negb (is_NaN n) | _ => false end.

Definition is_string (v : JSValue) : bool :=
  match v with JString _ => true | _ => false end.

Definition is_optional_string (v : JSValue) : bool :=
  match v with JUndefined | JString _ => true | _ => false end.

(** A record as the interface AccountMetadataV1 declares it, as far as
    deduplication reads it: an object whose refreshToken is a string, whose
    accountId is absent or a string, and whose addedAt and lastUsed are
    timestamps. *)
Definition isAccountMetadataV1 (v : JSValue) : bool :=
  match v with
  | JObject _ =>
      is_optional_string (getProp v "accountId")
      && is_string (getProp v "refreshToken")
      && is_timestamp (getProp v "addedAt")
      && is_timestamp (getProp v "lastUsed")
  | _ => false
  end.

Definition lastUsedOf (account : JSValue) : number := as_number (getProp account "lastUsed").
Definition addedAtOf (account : JSValue) : number := as_number (getProp account "addedAt").

(** Record [a] at position [i] is older than record [b] at position [j]:
    smaller lastUsed; or the same lastUsed and smaller addedAt; or both the
    same and an earlier position. *)
Definition older (a : JSValue) (i : nat) (b : JSValue) (j : nat) : Prop :=
  num_lt (lastUsedOf a) (lastUsedOf b)
  \/ (num_eq (lastUsedOf a) (lastUsedOf b)
      /\ (num_lt (addedAtOf a) (addedAtOf b)
          \/ (num_eq (addedAtOf a) (addedAtOf b) /\ (i < j)%nat))).

Definition sameKey (a b : JSValue) : bool :=
  SameValueZero (identityKey a) (identityKey b).

(** An entry of keyToIndex after [n] iterations points at a usable account
    seen so far, and its key is that account's key. *)
Definition entryOk (l : list JSValue) (n : nat) (e : JSValue * nat) : Prop :=
  (snd e < n)%nat
  /\ exists a, l !! snd e = Some a /\ usable a = true
              /\ (fst e = identityKey a \/ keyEq (fst e) (identityKey a)).

(** The index that the first loop stores when the key is already present. *)
Definition chosenIndex (l : list JSValue) (existingIndex i : nat) (account : JSValue) : nat :=
  if same_ref (selectNewestAccount (slot l existingIndex) (i, account)) (i, account)
  then i else existingIndex.

(** Every usable account among the first [n] has an entry under its key,
    and the entry points at that account or at one it is older than. *)
Definition newestSoFar (l : list JSValue) (n : nat) (m : KeyMap) : Prop :=
  forall i a, (i < n)%nat -> l !! i = Some a -> usable a = true ->
    exists k j b, (k, j) ∈ m /\ keyEq k (identityKey a) /\ l !! j = Some b
                  /\ (j = i \/ older a i b j).

(** The keys of the entries of a Map are pairwise different keys. *)
Fixpoint distinctKeys (m : KeyMap) : Prop :=
  match m with
  | [] => True
  | (k, _) :: rest => (forall e, e ∈ rest -> ~ keyEq k (fst e)) /\ distinctKeys rest
  end.

(** The identity keys of a list of accounts are pairwise different. *)
Fixpoint uniqueKeys (l : list JSValue) : Prop :=
  match l with
  | [] => True
  | a :: rest =>
      (forall b, b ∈ rest -> ~ keyEq (identityKey a) (identityKey b)) /\ uniqueKeys rest
  end.

(** A key that a Map finds again: a primitive.  (An object or array used
    as a key is only found under the same reference.) *)
Definition isPrimitive (v : JSValue) : bool :=
  match v with JArray _ | JObject _ => false | _ => true end.

(** Every usable account among the first [n] whose key is a primitive has
    an entry under its key. *)
Definition keyPresent (l : list JSValue) (n : nat) (m : KeyMap) : Prop :=
  forall i a, (i < n)%nat -> l !! i = Some a -> usable a = true ->
    isPrimitive (identityKey a) = true ->
    exists e, e ∈ m /\ keyEq (fst e) (identityKey a).

(** The object literal [{ version, accounts, activeIndex }] that
    loadAccounts returns and saveAccounts is handed, as a value. *)
Definition storageValue (st : AccountStorageV1) : JSValue :=
  JObject [("version", JNumber (version st));
           ("accounts", JArray (accounts st));
           ("activeIndex", JNumber (activeIndex st))].

(** *** Numbers and keys *)

Lemma Qlt_bool_iff a b : Qlt_bool a b = true <-> (a < b)%Q.
Proof.
  unfold Qlt_bool. rewrite Qlt_alt. destruct (a ?= b)%Q; split; congruence.
Qed.

Lemma Qlt_bool_false a b : Qlt_bool a b = false <-> (b <= a)%Q.
Proof.
  unfold Qlt_bool. destruct (a ?= b)%Q eqn:E.
  - apply Qeq_alt in E. split; [intros _ | done]. rewrite E. apply Qle_refl.
  - apply Qlt_alt in E. split; [done |]. intros H.
    exfalso. exact (Qlt_not_le _ _ E H).
  - apply Qgt_alt in E. split; [intros _ | done]. by apply Qlt_le_weak.
Qed.

Lemma Number_equal_sym x y : Number_equal x y = true -> Number_equal y x = true.
Proof. destruct x, y; simpl; try done. apply Qeq_bool_sym. Qed.

Lemma Number_equal_trans x y z :
  Number_equal x y = true -> Number_equal y z = true -> Number_equal x z = true.
Proof. destruct x, y, z; simpl; try done. apply Qeq_bool_trans. Qed.

Ltac by_cases_on_values :=
  repeat match goal with
         | v : JSValue |- _ => destruct v
         | n : number |- _ => destruct n
         | b : bool |- _ => destruct b
         end;
  simpl; try done.

Lemma keyEq_sym a b : keyEq a b -> keyEq b a.
Proof.
  unfold keyEq. by_cases_on_values.
  - apply Qeq_bool_sym.
  - rewrite !String.eqb_eq. done.
Qed.

Lemma keyEq_trans a b c : keyEq a b -> keyEq b c -> keyEq a c.
Proof.
  unfold keyEq. by_cases_on_values.
  - apply Qeq_bool_trans.
  - rewrite !String.eqb_eq. congruence.
Qed.

(** *** The Map of keys *)

Lemma Map_get_None key m :
  Map_get key m = None <-> forall e, e ∈ m -> ~ keyEq (fst e) key.
Proof.
  induction m as [|[k v] m IH]; simpl.
  - split; [|done]. intros _ e He. by apply elem_of_nil in He.
  - unfold keyEq in *. destruct (SameValueZero k key) eqn:E.
    + split; [done|]. intros H. destruct (H (k, v)); [left | done].
    + rewrite IH. split.
      * intros H e [->|He]%elem_of_cons; simpl; [congruence | by apply H].
      * intros H e He. apply H. by right.
Qed.

Lemma Map_set_fresh key v m :
  Map_get key m = None -> Map_set key v m = (m ++ [(key, v)])%list.
Proof.
  induction m as [|[k v'] m IH]; simpl; [done|].
  destruct (SameValueZero k key); [done|]. intros H. by rewrite IH.
Qed.

Lemma Map_get_Some key m e :
  Map_get key m = Some e ->
  exists m1 k m2,
    m = (m1 ++ (k, e) :: m2)%list /\ keyEq k key
    /\ forall v, Map_set key v m = (m1 ++ (k, v) :: m2)%list.
Proof.
  induction m as [|[k v'] m IH]; simpl; [done|].
  destruct (SameValueZero k key) eqn:E.
  - intros [= ->]. exists [], k, m. split; [done|]. split; [exact E|].
    done.
  - intros H. destruct (IH H) as (m1 & k' & m2 & -> & Hk & Hset).
    exists ((k, v') :: m1), k', m2. split; [done|]. split; [exact Hk|].
    intros v. simpl. by rewrite Hset.
Qed.

Lemma distinctKeys_fst m m' :
  map fst m = map fst m' -> distinctKeys m -> distinctKeys m'.
Proof.
  revert m'. induction m as [|[k v] m IH]; intros [|[k' v'] m']; simpl; try done.
  intros [= -> Hm] [Hk Hd]. split; [|by apply IH].
  intros e He Heq.
  assert (fst e ∈ map fst m) as (e' & He' & Hin)%list_elem_of_fmap.
  { rewrite Hm. apply list_elem_of_fmap. by exists e. }
  apply (Hk e' Hin). by rewrite <- He'.
Qed.

Lemma distinctKeys_snoc m key v :
  distinctKeys m -> Map_get key m = None -> distinctKeys (m ++ [(key, v)]).
Proof.
  rewrite Map_get_None.
  induction m as [|[k v'] m IH]; simpl.
  - intros _ _. split; [|done]. intros e He. by apply elem_of_nil in He.
  - intros [Hk Hd] Hnone. split.
    + intros e [He|He]%elem_of_app; [by apply Hk|].
      apply list_elem_of_singleton in He as ->. simpl.
      apply (Hnone (k, v')). by left.
    + apply IH; [done|]. intros e He. apply Hnone. by right.
Qed.

Lemma distinctKeys_unique m e1 e2 :
  distinctKeys m -> e1 ∈ m -> e2 ∈ m -> keyEq (fst e1) (fst e2) -> e1 = e2.
Proof.
  induction m as [|[k v] m IH]; simpl.
  - intros _ H. by apply elem_of_nil in H.
  - intros [Hk Hd] [->|H1]%elem_of_cons [->|H2]%elem_of_cons Heq; simpl in *.
    + done.
    + by destruct (Hk e2 H2).
    + destruct (Hk e1 H1). by apply keyEq_sym.
    + by apply IH.
Qed.

(** *** The first loop *)

Lemma scanned_S l n : scanned l (S n) = scanStep l (scanned l n) n.
Proof. unfold scanned. by rewrite seq_S, foldl_app. Qed.

Lemma scanStep_cases l m i :
  scanStep l m i = m
  \/ (exists a, l !! i = Some a /\ usable a = true
                /\ Map_get (identityKey a) m = None
                /\ scanStep l m i = m ++ [(identityKey a, i)])
  \/ (exists a e m1 k m2,
        l !! i = Some a /\ usable a = true
        /\ m = m1 ++ (k, e) :: m2 /\ keyEq k (identityKey a)
        /\ scanStep l m i = m1 ++ (k, chosenIndex l e i a) :: m2).
Proof.
  unfold scanStep, usable.
  destruct (l !! i) as [a|] eqn:Ha; [|by left].
  destruct (truthy a) eqn:Ht; simpl; [|by left].
  destruct (truthy (identityKey a)) eqn:Hkey; simpl; [|by left].
  assert (truthy a && truthy (identityKey a) = true) as Hu by (by rewrite Ht, Hkey).
  destruct (Map_get (identityKey a) m) as [e|] eqn:Hget.
  - right; right. apply Map_get_Some in Hget as (m1 & k & m2 & -> & Hk & Hset).
    exists a, e, m1, k, m2. split_and!; done.
  - right; left. exists a. split_and!; try done. by apply Map_set_fresh.
Qed.

Lemma chosenIndex_cases l e i a : chosenIndex l e i a = i \/ chosenIndex l e i a = e.
Proof. unfold chosenIndex. destruct (same_ref _ _); auto. Qed.

Lemma entryOk_mono l n e : entryOk l n e -> entryOk l (S n) e.
Proof. intros [Hlt H]. split; [lia | done]. Qed.

Lemma scan_invariant l n :
  Forall (entryOk l n) (scanned l n) /\ distinctKeys (scanned l n).
Proof.
  induction n as [|n [IHok IHd]]; [by split|].
  rewrite scanned_S.
  assert (Forall (entryOk l (S n)) (scanned l n)) as IHok'.
  { eapply Forall_impl; [exact IHok | apply entryOk_mono]. }
  destruct (scanStep_cases l (scanned l n) n)
    as [-> | [(a & Ha & Hu & Hget & ->) | (a & e & m1 & k & m2 & Ha & Hu & Hm & Hk & ->)]].
  - done.
  - split.
    + apply Forall_app. split; [done|]. apply Forall_singleton.
      split; simpl; [lia|]. exists a. auto.
    + by apply distinctKeys_snoc.
  - rewrite Hm in IHok', IHd.
    apply Forall_app in IHok' as [Hok1 [Hoke Hok2]%Forall_cons].
    split.
    + apply Forall_app. split; [done|]. apply Forall_cons. split; [|done].
      destruct (chosenIndex_cases l e n a) as [-> | ->]; [|done].
      split; simpl; [lia|]. exists a. auto.
    + eapply distinctKeys_fst; [|exact IHd].
      by rewrite !map_app.
Qed.

(** *** The kept indices and the last loop *)

Lemma Set_add_fold i vals (s : gset nat) :
  i ∈ foldl (fun s idx => Set_add idx s) s vals <-> i ∈ s \/ i ∈ vals.
Proof.
  revert s. induction vals as [|v vals IH]; intros s; simpl.
  - rewrite elem_of_nil. tauto.
  - rewrite IH. unfold Set_add. rewrite elem_of_union, elem_of_singleton, elem_of_cons.
    tauto.
Qed.

Lemma indicesToKeep_elem l i :
  i ∈ indicesToKeep l <-> i ∈ Map_values (scanned l (length l)).
Proof.
  unfold indicesToKeep. rewrite Set_add_fold. rewrite elem_of_empty. tauto.
Qed.

Lemma keepAt_app P s xs ys :
  keepAt P s (xs ++ ys) = keepAt P s xs ++ keepAt P (s + length xs) ys.
Proof.
  revert s. induction xs as [|x xs IH]; intros s; simpl.
  - by rewrite Nat.add_0_r.
  - rewrite IH. replace (S s + length xs)%nat with (s + S (length xs))%nat by lia.
    by destruct (P s x).
Qed.

Lemma collect_take l (S : gset nat) n :
  (n <= length l)%nat ->
  foldl (collectStep l S) [] (seq 0 n)
  = keepAt (fun i a => Set_has S i && truthy a) 0 (take n l).
Proof.
  induction n as [|n IH]; intros Hn; [done|].
  destruct (lookup_lt_is_Some_2 l n) as [a Ha]; [lia|].
  rewrite seq_S, foldl_app, IH by lia. simpl.
  rewrite (take_S_r _ _ _ Ha), keepAt_app. simpl.
  rewrite length_take, Nat.min_l by lia.
  unfold collectStep. rewrite Ha.
  destruct (Set_has S n); simpl; [|by rewrite app_nil_r].
  destruct (truthy a); [done | by rewrite app_nil_r].
Qed.

Lemma deduplicateAccounts_keepAt l :
  deduplicateAccounts l = keepAt (survives l) 0 l.
Proof.
  unfold deduplicateAccounts. fold (scanned l (length l)). fold (indicesToKeep l).
  rewrite collect_take by done. by rewrite firstn_all.
Qed.

Lemma keepAt_sublist P s l : keepAt P s l `sublist_of` l.
Proof.
  revert s. induction l as [|x l IH]; intros s; simpl; [done|].
  destruct (P s x); [by apply sublist_skip | by apply sublist_cons].
Qed.

Lemma elem_of_keepAt P s l x :
  x ∈ keepAt P s l <-> exists i, l !! i = Some x /\ P (s + i)%nat x = true.
Proof.
  revert s. induction l as [|y l IH]; intros s; simpl.
  - rewrite elem_of_nil. split; [done|]. by intros (i & Hi & _).
  - assert (x ∈ keepAt P (S s) l <->
            exists i, (y :: l) !! S i = Some x /\ P (s + S i)%nat x = true) as IH'.
    { rewrite IH. by setoid_rewrite Nat.add_succ_r. }
    destruct (P s y) eqn:Hy.
    + rewrite elem_of_cons, IH'. split.
      * intros [->|(i & Hi)]; [exists 0%nat | by exists (S i)].
        by rewrite Nat.add_0_r.
      * intros ([|i] & Hi & HP); [left | right; by exists i].
        by injection Hi.
    + rewrite IH'. split.
      * intros (i & Hi). by exists (S i).
      * intros ([|i] & Hi & HP); [|by exists i].
        injection Hi as ->. rewrite Nat.add_0_r in HP. congruence.
Qed.

Lemma keepAt_all P s l :
  (forall i a, l !! i = Some a -> P (s + i)%nat a = true) -> keepAt P s l = l.
Proof.
  revert s. induction l as [|x l IH]; intros s H; simpl; [done|].
  rewrite <- (Nat.add_0_r s) at 1. rewrite (H 0%nat x) by done.
  f_equal. apply IH. intros i a Hi.
  replace (S s + i)%nat with (s + S i)%nat by lia. by apply H.
Qed.

Lemma deduplicateAccounts_sublist l :
  deduplicateAccounts l `sublist_of` l.
Proof. rewrite deduplicateAccounts_keepAt. apply keepAt_sublist. Qed.

(** *** What survives *)

Lemma survives_entry l i a :
  survives l i a = true ->
  exists k, (k, i) ∈ scanned l (length l) /\ entryOk l (length l) (k, i).
Proof.
  unfold survives, Set_has. intros [Hi _]%andb_prop.
  apply bool_decide_eq_true, indicesToKeep_elem in Hi.
  apply list_elem_of_fmap in Hi as ([k j] & -> & He). simpl.
  exists k. split; [done|].
  destruct (scan_invariant l (length l)) as [Hok _].
  by apply (proj1 (Forall_forall _ _) Hok).
Qed.

Lemma survives_usable l i a :
  l !! i = Some a -> survives l i a = true -> usable a = true.
Proof.
  intros Ha (k & _ & _ & a' & Ha' & Hu & _)%survives_entry. simpl in Ha'.
  congruence.
Qed.

Lemma survivors_distinct l i j a b :
  i <> j -> l !! i = Some a -> l !! j = Some b ->
  survives l i a = true -> survives l j b = true ->
  ~ keyEq (identityKey a) (identityKey b).
Proof.
  intros Hij Ha Hb (k1 & H1 & _ & a' & Ha' & _ & Hk1)%survives_entry
         (k2 & H2 & _ & b' & Hb' & _ & Hk2)%survives_entry Heq.
  simpl in *. assert (a' = a) as -> by congruence. assert (b' = b) as -> by congruence.
  destruct (scan_invariant l (length l)) as [_ Hd].
  assert (keyEq k1 k2) as Hk.
  { destruct Hk1 as [->|Hk1], Hk2 as [->|Hk2].
    - done.
    - eapply keyEq_trans; [exact Heq | by apply keyEq_sym].
    - eapply keyEq_trans; [exact Hk1 | exact Heq].
    - eapply keyEq_trans; [exact Hk1|].
      eapply keyEq_trans; [exact Heq | by apply keyEq_sym]. }
  pose proof (distinctKeys_unique _ (k1, i) (k2, j) Hd H1 H2 Hk). congruence.
Qed.

Lemma uniqueKeys_keepAt P s l :
  (forall i j a b, (i < j)%nat -> l !! i = Some a -> l !! j = Some b ->
                   P (s + i)%nat a = true -> P (s + j)%nat b = true ->
                   ~ keyEq (identityKey a) (identityKey b)) ->
  uniqueKeys (keepAt P s l).
Proof.
  revert s. induction l as [|x l IH]; intros s H; simpl; [done|].
  assert (uniqueKeys (keepAt P (S s) l)) as Hrest.
  { apply IH. intros i j a b Hij Ha Hb Hpa Hpb.
    apply (H (S i) (S j) a b); try done; [lia| |].
    - by rewrite Nat.add_succ_r.
    - by rewrite Nat.add_succ_r. }
  destruct (P s x) eqn:Hx; [|done].
  simpl. split; [|done].
  intros b (j & Hj & Hpb)%elem_of_keepAt.
  apply (H 0%nat (S j) x b); try done; [lia | by rewrite Nat.add_0_r |].
  by rewrite Nat.add_succ_r.
Qed.

Lemma uniqueKeys_lookup l i j a b :
  uniqueKeys l -> (i < j)%nat -> l !! i = Some a -> l !! j = Some b ->
  ~ keyEq (identityKey a) (identityKey b).
Proof.
  revert i j. induction l as [|x l IH]; intros i j; simpl; [done|].
  intros [Hx Hu] Hij Ha Hb. destruct j as [|j]; [lia|]. simpl in Hb.
  destruct i as [|i]; simpl in Ha.
  - injection Ha as ->. apply Hx. by eapply list_elem_of_lookup_2.
  - apply (IH i j); [done | lia | done | done].
Qed.

(** On a list of usable accounts with pairwise different keys the first
    loop records every index. *)
Lemma scanned_unique l n :
  Forall (fun a => usable a = true) l -> uniqueKeys l -> (n <= length l)%nat ->
  (forall e, e ∈ scanned l n ->
             exists a, (snd e < n)%nat /\ l !! snd e = Some a /\ fst e = identityKey a)
  /\ (forall i, (i < n)%nat -> i ∈ Map_values (scanned l n)).
Proof.
  intros Hus Huniq. induction n as [|n IH]; intros Hn.
  - split; [|lia]. intros e He. by apply elem_of_nil in He.
  - destruct IH as [IHe IHv]; [lia|].
    destruct (lookup_lt_is_Some_2 l n) as [a Ha]; [lia|].
    assert (usable a = true) as Hu.
    { by apply (proj1 (Forall_forall _ _) Hus), list_elem_of_lookup_2 with n. }
    assert (Map_get (identityKey a) (scanned l n) = None) as Hget.
    { apply Map_get_None. intros e He.
      destruct (IHe e He) as (b & Hlt & Hb & ->).
      by apply (uniqueKeys_lookup l (snd e) n). }
    assert (scanned l (S n) = scanned l n ++ [(identityKey a, n)]) as ->.
    { rewrite scanned_S. unfold scanStep. rewrite Ha.
      unfold usable in Hu. apply andb_prop in Hu as [-> ->]. simpl.
      rewrite Hget. by apply Map_set_fresh. }
    split.
    + intros e [He|He]%elem_of_app.
      * destruct (IHe e He) as (b & Hlt & Hb & Hk). exists b. split; [lia | done].
      * apply list_elem_of_singleton in He as ->. exists a. simpl. split; [lia | done].
    + intros i Hi. unfold Map_values. rewrite map_app. apply elem_of_app.
      destruct (decide (i = n)) as [->|Hne].
      * right. simpl. by apply list_elem_of_singleton.
      * left. apply IHv. lia.
Qed.

Lemma deduplicateAccounts_fixed l :
  Forall (fun a => usable a = true) l -> uniqueKeys l -> deduplicateAccounts l = l.
Proof.
  intros Hus Huniq. rewrite deduplicateAccounts_keepAt. apply keepAt_all.
  intros i a Ha. simpl. unfold survives, Set_has.
  apply andb_true_intro. split.
  - apply bool_decide_eq_true, indicesToKeep_elem.
    apply (scanned_unique l (length l)); [done | done | done |].
    by eapply lookup_lt_Some.
  - assert (usable a = true) as Hu.
    { by apply (proj1 (Forall_forall _ _) Hus), list_elem_of_lookup_2 with i. }
    unfold usable in Hu. by apply andb_prop in Hu as [-> _].
Qed.

Lemma deduplicateAccounts_usable l :
  Forall (fun a => usable a = true) (deduplicateAccounts l).
Proof.
  rewrite deduplicateAccounts_keepAt. apply Forall_forall.
  intros a (i & Ha & Hs)%elem_of_keepAt. by apply (survives_usable l i).
Qed.

Lemma deduplicateAccounts_uniqueKeys l : uniqueKeys (deduplicateAccounts l).
Proof.
  rewrite deduplicateAccounts_keepAt. apply uniqueKeys_keepAt.
  intros i j a b Hij Ha Hb Hsa Hsb. apply (survivors_distinct l i j); try done. lia.
Qed.

(** *** The order on timestamps *)

Lemma Qlt_bool_compat a a' b b' :
  (a == a')%Q -> (b == b')%Q -> Qlt_bool a b = Qlt_bool a' b'.
Proof. intros Ha Hb. unfold Qlt_bool. by rewrite Ha, Hb. Qed.

Lemma lessThan_total x y :
  is_NaN x = false -> is_NaN y = false ->
  (Number_lessThan x y = Some true /\ Number_lessThan y x = Some false)
  \/ (Number_lessThan x y = Some false /\ Number_lessThan y x = Some false
      /\ Number_equal x y = true)
  \/ (Number_lessThan x y = Some false /\ Number_lessThan y x = Some true).
Proof.
  destruct x as [| |a|], y as [| |b|]; simpl; try done; auto.
  intros _ _. destruct (Qlt_bool a b) eqn:Hab, (Qlt_bool b a) eqn:Hba; auto.
  - apply Qlt_bool_iff in Hab, Hba. lra.
  - apply Qlt_bool_false in Hab, Hba.
    right; left. repeat split. apply Qeq_bool_iff. lra.
Qed.

Lemma num_lt_trans x y z : num_lt x y -> num_lt y z -> num_lt x z.
Proof.
  unfold num_lt. destruct x, y, z; simpl; try done.
  intros [= H1%Qlt_bool_iff] [= H2%Qlt_bool_iff].
  f_equal. apply Qlt_bool_iff. lra.
Qed.

Lemma num_eq_trans x y z : num_eq x y -> num_eq y z -> num_eq x z.
Proof. apply Number_equal_trans. Qed.

Lemma num_lt_eq x y z : num_lt x y -> num_eq y z -> num_lt x z.
Proof.
  unfold num_lt, num_eq. destruct x, y, z; simpl; try done.
  intros [= H1%Qlt_bool_iff] H2%Qeq_bool_iff.
  f_equal. apply Qlt_bool_iff. lra.
Qed.

Lemma num_eq_lt x y z : num_eq x y -> num_lt y z -> num_lt x z.
Proof.
  unfold num_lt, num_eq. destruct x, y, z; simpl; try done.
  intros H1%Qeq_bool_iff [= H2%Qlt_bool_iff].
  f_equal. apply Qlt_bool_iff. lra.
Qed.

Lemma older_trans a i b j c k :
  older a i b j -> older b j c k -> older a i c k.
Proof.
  unfold older.
  intros [H1 | [E1 [H1 | [F1 L1]]]] [H2 | [E2 [H2 | [F2 L2]]]];
    eauto 7 using num_lt_trans, num_eq_trans, num_lt_eq, num_eq_lt.
  right. split; [eauto using num_eq_trans|]. right. split; [eauto using num_eq_trans | lia].
Qed.

(** On timestamps the comparison of the [x || 0] operands is the
    comparison of the numbers themselves. *)
Lemma IsLessThan_orZero x y :
  is_NaN x = false -> is_NaN y = false ->
  IsLessThan (js_or (JNumber x) (JNumber (Finite 0))) (js_or (JNumber y) (JNumber (Finite 0)))
  = Number_lessThan x y.
Proof.
  unfold js_or.
  destruct x as [| |a|], y as [| |b|]; simpl; try done.
  - by destruct (Qeq_bool b 0).
  - by destruct (Qeq_bool a 0).
  - intros _ _.
    destruct (Qeq_bool a 0) eqn:Ha, (Qeq_bool b 0) eqn:Hb; simpl; f_equal;
      try apply Qeq_bool_iff in Ha; try apply Qeq_bool_iff in Hb;
      apply Qlt_bool_compat; try reflexivity; symmetry; assumption.
  - by destruct (Qeq_bool a 0).
  - by destruct (Qeq_bool b 0).
Qed.

(** *** Records of the declared shape *)

Lemma record_fields a :
  isAccountMetadataV1 a = true ->
  truthy a = true
  /\ (exists x, getProp a "lastUsed" = JNumber x /\ is_NaN x = false)
  /\ (exists y, getProp a "addedAt" = JNumber y /\ is_NaN y = false).
Proof.
  destruct a; simpl; try done.
  intros [[[_ _]%andb_prop Had]%andb_prop Hlu]%andb_prop.
  split; [done|]. split.
  - destruct (lookup_prop "lastUsed" props) as [| | |x| | |]; try done.
    exists x. split; [done|]. by apply negb_true_iff.
  - destruct (lookup_prop "addedAt" props) as [| | |y| | |]; try done.
    exists y. split; [done|]. by apply negb_true_iff.
Qed.

Lemma record_key_refl a :
  isAccountMetadataV1 a = true -> keyEq (identityKey a) (identityKey a).
Proof.
  destruct a; simpl; try done.
  intros [[[Hid Hrt]%andb_prop _]%andb_prop _]%andb_prop.
  unfold keyEq, identityKey, js_or. simpl.
  destruct (lookup_prop "accountId" props) as [| | | |s| |]; try done;
    destruct (lookup_prop "refreshToken" props) as [| | | |r| |]; try done; simpl.
  - apply String.eqb_refl.
  - destruct (negb (String.eqb s "")); simpl; apply String.eqb_refl.
Qed.

(** Which index the first loop stores for two records of the declared
    shape that share a key. *)
Lemma chosenIndex_newest l e n b c :
  l !! e = Some b -> (e < n)%nat ->
  isAccountMetadataV1 b = true -> isAccountMetadataV1 c = true ->
  (chosenIndex l e n c = n /\ older b e c n)
  \/ (chosenIndex l e n c = e /\ older c n b e).
Proof.
  intros Hb Hlt (Htb & (xb & Hxb & Nxb) & (yb & Hyb & Nyb))%record_fields
         (_ & (xc & Hxc & Nxc) & (yc & Hyc & Nyc))%record_fields.
  unfold chosenIndex, slot, selectNewestAccount, older, lastUsedOf, addedAtOf.
  rewrite Hb. simpl. rewrite Htb, Hxb, Hxc, Hyb, Hyc. simpl.
  unfold js_gt, js_lt, js_ge. rewrite !IsLessThan_orZero by done.
  unfold same_ref, num_lt, num_eq. simpl.
  assert ((e =? n)%nat = false) as He by (apply Nat.eqb_neq; lia).
  destruct (lessThan_total xb xc Nxb Nxc) as [[-> ->] | [(-> & -> & Hx) | [-> ->]]]; simpl.
  - rewrite Nat.eqb_refl. left. split; [done | by left].
  - destruct (lessThan_total yb yc Nyb Nyc) as [[-> ->] | [(-> & -> & Hy) | [-> ->]]]; simpl.
    + rewrite Nat.eqb_refl. left. split; [done|]. right. split; [done | by left].
    + rewrite Nat.eqb_refl. left. split; [done|]. right. split; [done|]. right. by split.
    + rewrite He. right. split; [done|]. right. split; [by apply Number_equal_sym | by left].
  - rewrite He. right. split; [done | by left].
Qed.

(** *** The first loop keeps the newest record of each key *)

Lemma scanStep_skip l m i :
  (forall a, l !! i = Some a -> usable a = false) -> scanStep l m i = m.
Proof.
  intros H. unfold scanStep. destruct (l !! i) as [a|]; [|done].
  specialize (H a eq_refl). unfold usable in H.
  destruct (truthy a); simpl in *; [|done]. by rewrite H.
Qed.

Lemma scanStep_usable l m i a :
  l !! i = Some a -> usable a = true ->
  (Map_get (identityKey a) m = None /\ scanStep l m i = m ++ [(identityKey a, i)])
  \/ (exists e m1 k m2,
        m = m1 ++ (k, e) :: m2 /\ keyEq k (identityKey a)
        /\ scanStep l m i = m1 ++ (k, chosenIndex l e i a) :: m2).
Proof.
  intros Ha [Ht Hk]%andb_prop. unfold scanStep. rewrite Ha, Ht, Hk. simpl.
  destruct (Map_get (identityKey a) m) as [e|] eqn:Hget.
  - right. apply Map_get_Some in Hget as (m1 & k & m2 & -> & Hkk & Hset).
    exists e, m1, k, m2. split_and!; done.
  - left. split; [done|]. by apply Map_set_fresh.
Qed.

Lemma scan_newest l n :
  Forall (fun a => isAccountMetadataV1 a = true) l ->
  newestSoFar l n (scanned l n).
Proof.
  intros Hwf. induction n as [|n IH]; [intros i a Hi; lia|].
  rewrite scanned_S.
  destruct (scan_invariant l n) as [Hok Hd].
  destruct (l !! n) as [c|] eqn:Hc; cycle 1.
  { rewrite scanStep_skip by (intros a; congruence).
    intros i a Hi Ha Hu. apply IH; [|done|done].
    destruct (decide (i = n)) as [->|]; [congruence | lia]. }
  destruct (usable c) eqn:Huc; cycle 1.
  { rewrite scanStep_skip by (intros a; congruence).
    intros i a Hi Ha Hu. apply IH; [|done|done].
    destruct (decide (i = n)) as [->|]; [congruence | lia]. }
  assert (isAccountMetadataV1 c = true) as Hwc.
  { by apply (proj1 (Forall_forall _ _) Hwf), list_elem_of_lookup_2 with n. }
  destruct (scanStep_usable l (scanned l n) n c Hc Huc)
    as [[Hget ->] | (e & m1 & k & m2 & Hm & Hk & ->)].
  - intros i a Hi Ha Hu. destruct (decide (i = n)) as [->|Hne].
    + assert (a = c) as -> by congruence.
      exists (identityKey c), n, c. split_and!; auto.
      * apply elem_of_app. right. by apply list_elem_of_singleton.
      * by apply record_key_refl.
    + destruct (IH i a) as (k & j & b & Hin & Hk & Hb & Hj); [lia|done|done|].
      exists k, j, b. split_and!; auto. apply elem_of_app. by left.
  - rewrite Hm in Hok.
    apply Forall_app in Hok as [_ [[He (b & Hb & Hub & _)] _]%Forall_cons].
    simpl in He, Hb.
    assert (isAccountMetadataV1 b = true) as Hwb.
    { by apply (proj1 (Forall_forall _ _) Hwf), list_elem_of_lookup_2 with e. }
    destruct (chosenIndex_newest l e n b c Hb He Hwb Hwc) as [[-> Hold] | [-> Hold]].
    + intros i a Hi Ha Hu. destruct (decide (i = n)) as [->|Hne].
      * assert (a = c) as -> by congruence.
        exists k, n, c. split_and!; auto.
        apply elem_of_app. right. by left.
      * destruct (IH i a) as (k' & j & b' & Hin & Hk' & Hb' & Hj); [lia|done|done|].
        rewrite Hm in Hin.
        apply elem_of_app in Hin as [Hin | [Heq | Hin]%elem_of_cons].
        -- exists k', j, b'. split_and!; auto. apply elem_of_app. by left.
        -- injection Heq as -> ->. assert (b' = b) as -> by congruence.
           exists k, n, c. split_and!; auto.
           ++ apply elem_of_app. right. by left.
           ++ right. destruct Hj as [-> | Hj].
              ** assert (a = b) as -> by congruence. done.
              ** by eapply older_trans.
        -- exists k', j, b'. split_and!; auto. apply elem_of_app. right. by right.
    + rewrite <- Hm.
      intros i a Hi Ha Hu. destruct (decide (i = n)) as [->|Hne].
      * assert (a = c) as -> by congruence.
        exists k, e, b. split_and!; auto.
        rewrite Hm. apply elem_of_app. right. by left.
      * apply IH; [lia|done|done].
Qed.

Lemma keyEq_truthy k k' : keyEq k k' -> truthy k = truthy k'.
Proof.
  unfold keyEq. by_cases_on_values.
  - intros H%Qeq_bool_iff. f_equal.
    destruct (Qeq_bool q0 0) eqn:E0, (Qeq_bool q 0) eqn:E; try done.
    + apply Qeq_bool_iff in E0. apply Qeq_bool_neq in E. destruct E. by rewrite <- H.
    + apply Qeq_bool_iff in E. apply Qeq_bool_neq in E0. destruct E0. by rewrite H.
  - intros H%String.eqb_eq. by rewrite H.
Qed.

Lemma filter_keepAt (Q : JSValue -> bool) P s l :
  List.filter Q (keepAt P s l) = keepAt (fun i x => P i x && Q x) s l.
Proof.
  revert s. induction l as [|x l IH]; intros s; simpl; [done|].
  destruct (P s x); simpl; [|done].
  destruct (Q x); by rewrite IH.
Qed.

Lemma keepAt_none P s l :
  (forall j b, l !! j = Some b -> P (s + j)%nat b = false) -> keepAt P s l = [].
Proof.
  revert s. induction l as [|x l IH]; intros s H; simpl; [done|].
  rewrite <- (Nat.add_0_r s) at 1. rewrite (H 0%nat x) by done.
  apply IH. intros j b Hj. replace (S s + j)%nat with (s + S j)%nat by lia. by apply H.
Qed.

Lemma keepAt_single P s l w aw :
  l !! w = Some aw -> P (s + w)%nat aw = true ->
  (forall j b, l !! j = Some b -> P (s + j)%nat b = true -> j = w) ->
  keepAt P s l = [aw].
Proof.
  revert s w. induction l as [|x l IH]; intros s w Hw Hp Huniq; [done|].
  simpl. destruct w as [|w]; simpl in Hw.
  - injection Hw as ->. rewrite Nat.add_0_r in Hp. rewrite Hp. f_equal.
    apply keepAt_none. intros j b Hj.
    destruct (P (S s + j)%nat b) eqn:E; [|done].
    assert (S j = 0)%nat; [|lia].
    apply (Huniq (S j) b); [done|].
    by replace (s + S j)%nat with (S s + j)%nat by lia.
  - destruct (P s x) eqn:E.
    + assert (0 = S w)%nat; [|lia].
      apply (Huniq 0%nat x); [done|]. by rewrite Nat.add_0_r.
    + apply (IH (S s) w); [done | |].
      * by replace (S s + w)%nat with (s + S w)%nat by lia.
      * intros j b Hj Hpj. assert (S j = S w) as [= ->]; [|done].
        apply (Huniq (S j) b); [done|].
        by replace (s + S j)%nat with (S s + j)%nat by lia.
Qed.

Lemma record_usable a :
  isAccountMetadataV1 a = true -> truthy (identityKey a) = true -> usable a = true.
Proof.
  intros (Ht & _)%record_fields Hk. unfold usable. by rewrite Ht, Hk.
Qed.

(** *** Deduplication: main properties *)

(** C1.  For every list of account records and every record in it that has
    a usable identity key (accountId || refreshToken, non-empty), exactly
    one record with that key survives deduplicateAccounts, and every other
    record of the input with the same key is older than the survivor: it
    has a strictly smaller lastUsed, or the same lastUsed and a strictly
    smaller addedAt, or both are the same and it occurs earlier in the
    input. *)
Theorem deduplicateAccounts_keeps_newest (l : list JSValue) (i : nat) (a : JSValue) :
  Forall (fun r => isAccountMetadataV1 r = true) l ->
  l !! i = Some a ->
  truthy (identityKey a) = true ->
  exists w aw,
    l !! w = Some aw
    /\ sameKey a aw = true
    /\ List.filter (sameKey a) (deduplicateAccounts l) = [aw]
    /\ forall j b, l !! j = Some b -> sameKey a b = true -> j <> w -> older b j aw w.
Proof.
  intros Hwf Ha Hkey.
  assert (forall j b, l !! j = Some b -> isAccountMetadataV1 b = true) as Hrec.
  { intros j b Hb. by apply (proj1 (Forall_forall _ _) Hwf), list_elem_of_lookup_2 with j. }
  assert (forall j b, l !! j = Some b -> sameKey a b = true -> usable b = true) as Hus.
  { intros j b Hb Hs. apply record_usable; [by eapply Hrec|].
    by rewrite <- (keyEq_truthy _ _ Hs). }
  destruct (scan_invariant l (length l)) as [Hok Hd].
  destruct (scan_newest l (length l) Hwf i a) as (k & w & aw & Hin & Hk & Hw & Hiw).
  { by eapply lookup_lt_Some. }
  { done. }
  { apply record_usable; [by eapply Hrec | done]. }
  assert (keyEq (identityKey a) (identityKey aw)) as Hkw.
  { pose proof (proj1 (Forall_forall _ _) Hok _ Hin) as (_ & aw' & Haw' & _ & Hkaw).
    simpl in *. assert (aw' = aw) as -> by congruence.
    apply keyEq_trans with k; [by apply keyEq_sym|].
    destruct Hkaw as [-> | Hkaw]; [|done].
    apply record_key_refl. by eapply Hrec. }
  assert (survives l w aw = true) as Hsw.
  { unfold survives, Set_has. apply andb_true_intro. split.
    - apply bool_decide_eq_true, indicesToKeep_elem, list_elem_of_fmap.
      by exists (k, w).
    - by apply (record_fields aw), (Hrec w). }
  exists w, aw. split_and!; [done | exact Hkw | |].
  - rewrite deduplicateAccounts_keepAt, filter_keepAt.
    apply keepAt_single with w; simpl; [done | rewrite Hsw; exact Hkw |].
    intros j b Hb [Hsb Hab]%andb_prop.
    destruct (decide (j = w)) as [|Hne]; [done|].
    destruct (survivors_distinct l j w b aw Hne Hb Hw Hsb Hsw).
    apply keyEq_trans with (identityKey a); [by apply keyEq_sym | done].
  - intros j b Hb Hab Hne.
    destruct (scan_newest l (length l) Hwf j b) as (k' & w' & b' & Hin' & Hk' & Hw' & Hjw).
    { by eapply lookup_lt_Some. }
    { done. }
    { by eapply Hus. }
    assert ((k', w') = (k, w)) as [= -> ->].
    { apply (distinctKeys_unique _ _ _ Hd Hin' Hin). simpl.
      apply keyEq_trans with (identityKey b); [done|].
      apply keyEq_trans with (identityKey a); [by apply keyEq_sym | by apply keyEq_sym]. }
    assert (b' = aw) as -> by congruence.
    destruct Hjw as [-> | Hjw]; [done | done].
Qed.

(** C2.  The output of deduplicateAccounts is a stable subsequence of its
    input: it is obtained from the input by deleting records, so every
    output record is an input record, unchanged, and the survivors keep
    their relative order. *)
Theorem deduplicateAccounts_stable_subsequence (l : list JSValue) :
  deduplicateAccounts l `sublist_of` l.
Proof. apply deduplicateAccounts_sublist. Qed.

(** C10.  deduplicateAccounts is idempotent: applied to its own output it
    returns that output unchanged. *)
Theorem deduplicateAccounts_idempotent (l : list JSValue) :
  deduplicateAccounts (deduplicateAccounts l) = deduplicateAccounts l.
Proof.
  apply deduplicateAccounts_fixed.
  - apply deduplicateAccounts_usable.
  - apply deduplicateAccounts_uniqueKeys.
Qed.

(** *** loadAccounts, case by case *)

Lemma fs_readFile_world p w : snd (fs_readFile p w) = w.
Proof.
  unfold fs_readFile. destruct (faults w (CallReadFile p)); [done|].
  by destruct (files w !! p).
Qed.

Lemma loadAccounts_unfold w :
  loadAccounts w =
  match readOutcome w with
  | Throw e =>
      if bool_decide (error_code e = Some "ENOENT") then (Normal None, w)
      else (Normal None, add_log (LogError "Failed to load account storage" e) w)
  | Normal content =>
      match JSON_parse content with
      | None => (Normal None, add_log (LogError "Failed to load account storage" SyntaxError) w)
      | Some data =>
          match data with
          | JUndefined | JNull =>
              (Normal None, add_log (LogError "Failed to load account storage" TypeError) w)
          | _ =>
              if negb (Array_isArray (getProp data "accounts")) then
                (Normal None, add_log (LogWarn "Invalid storage format, ignoring" None) w)
              else if negb (strict_equals (getProp data "version") (JNumber (Finite 1))) then
                (Normal None,
                 add_log (LogWarn "Unknown storage version, ignoring"
                                  (Some (getProp data "version"))) w)
              else (Normal (Some (acceptedDocument data)), w)
          end
      end
  end.
Proof.
  unfold loadAccounts, readOutcome, try_catch, mbind, IO_bind, io_bind.
  pose proof (fs_readFile_world getStoragePath w) as Hw.
  destruct (fs_readFile getStoragePath w) as [[content|e] w']; simpl in *; subst w'.
  - destruct (JSON_parse content) as [data|]; simpl; [|done].
    destruct data; simpl; try done;
      repeat match goal with |- context [negb ?b] => destruct b; simpl; try done end.
  - unfold mret, IO_ret, io_ret. by destruct (bool_decide _).
Qed.

Lemma loadAccounts_accepts w st :
  fst (loadAccounts w) = Normal (Some st) ->
  exists content data,
    readOutcome w = Normal content /\ JSON_parse content = Some data
    /\ st = acceptedDocument data /\ loadAccounts w = (Normal (Some st), w).
Proof.
  rewrite loadAccounts_unfold.
  destruct (readOutcome w) as [content|e] eqn:Hread; [|by destruct (bool_decide _)].
  destruct (JSON_parse content) as [data|] eqn:Hparse; [|done].
  intros H. exists content, data.
  destruct data; simpl in *; try done;
    repeat match type of H with context [negb ?b] => destruct b; simpl in *; try done end;
    injection H as <-; done.
Qed.

Lemma inject_Z_nonneg z : (0 <= z)%Z -> (0 <= inject_Z z)%Q.
Proof. intros H. unfold Qle. simpl. lia. Qed.

Lemma clamp_bounds (x : number) (k : Q) :
  Number_isFinite x = true -> (0 <= k)%Q ->
  num_le (Finite 0) (Math_max (Finite 0) (Math_min x (Finite k)))
  /\ num_le (Math_max (Finite 0) (Math_min x (Finite k))) (Finite k).
Proof.
  destruct x as [| |q|]; try done. intros _ Hk.
  unfold num_le, Math_max, Math_min. simpl.
  destruct (Qlt_bool k q) eqn:E1; simpl.
  - destruct (Qlt_bool 0 k) eqn:E2; simpl; split; f_equal; apply Qlt_bool_false;
      try apply Qlt_bool_false in E2; lra.
  - destruct (Qlt_bool 0 q) eqn:E2; simpl; split; f_equal; apply Qlt_bool_false;
      try apply Qlt_bool_false in E1; try apply Qlt_bool_false in E2;
      try apply Qlt_bool_iff in E2; lra.
Qed.

Lemma clamp_zero (k : Q) :
  (0 <= k)%Q -> Math_max (Finite 0) (Math_min (Finite 0) (Finite k)) = Finite 0.
Proof.
  intros Hk. unfold Math_max, Math_min. simpl.
  assert (Qlt_bool k 0 = false) as -> by (apply Qlt_bool_false; lra).
  reflexivity.
Qed.

Lemma filter_sublist_of (P : JSValue -> bool) (l : list JSValue) :
  List.filter P l `sublist_of` l.
Proof.
  induction l as [|x l IH]; simpl; [done|].
  destruct (P x); [by apply sublist_skip | by apply sublist_cons].
Qed.

(** *** loadAccounts: main properties *)

(** C3, as the code has it.  Every account record of the document that
    loadAccounts returns has a refreshToken that is a string, and that
    string is non-empty unless the record carries a truthy accountId; the
    returned records are records of the stored list, the others having been
    dropped silently (nothing is logged when a document is returned). *)
Theorem loadAccounts_records_have_string_token (w : World) (st : AccountStorageV1)
    (a : JSValue) :
  fst (loadAccounts w) = Normal (Some st) ->
  a ∈ accounts st ->
  is_string (getProp a "refreshToken") = true
  /\ (truthy (getProp a "accountId") = false -> truthy (getProp a "refreshToken") = true)
  /\ (forall content data,
        readOutcome w = Normal content -> JSON_parse content = Some data ->
        accounts st `sublist_of` array_items (getProp data "accounts"))
  /\ log (snd (loadAccounts w)) = log w.
Proof.
  intros (content & data & Hread & Hparse & -> & ->)%loadAccounts_accepts Ha. simpl in *.
  split_and!; [| | |done].
  - rewrite deduplicateAccounts_keepAt in Ha.
    apply elem_of_keepAt in Ha as (i & Hi & _).
    apply list_elem_of_lookup_2, list_elem_of_In, filter_In in Hi as [_ Hv].
    unfold validAccount in Hv. apply andb_prop in Hv as [_ Hv].
    by destruct (getProp a "refreshToken").
  - intros Hid.
    pose proof (proj1 (Forall_forall _ _) (deduplicateAccounts_usable _) a Ha) as Hu.
    unfold usable, identityKey, js_or in Hu. rewrite Hid in Hu.
    by apply andb_prop in Hu as [_ Hu].
  - intros content' data' Hread' Hparse'.
    assert (data' = data) as -> by congruence.
    etrans; [apply deduplicateAccounts_sublist | apply filter_sublist_of].
Qed.

(** C4.  In every document that loadAccounts returns, activeIndex lies
    between 0 and the number of accounts minus one when there are
    accounts, and is 0 when there are none; a stored activeIndex that is
    missing, not a number or not finite counts as 0, which the clamp
    leaves at 0. *)
Theorem loadAccounts_activeIndex_clamped (w : World) (st : AccountStorageV1) :
  fst (loadAccounts w) = Normal (Some st) ->
  (accounts st <> [] ->
     num_le (Finite 0) (activeIndex st)
     /\ num_le (activeIndex st) (number_of_Z (Z.of_nat (length (accounts st)) - 1)))
  /\ (accounts st = [] -> activeIndex st = Finite 0)
  /\ (forall content data,
        readOutcome w = Normal content -> JSON_parse content = Some data ->
        readableIndex (getProp data "activeIndex") = false ->
        activeIndex st = Finite 0).
Proof.
  intros (content & data & Hread & Hparse & -> & _)%loadAccounts_accepts.
  unfold acceptedDocument. simpl.
  set (out := deduplicateAccounts _).
  split_and!.
  - intros Hne. destruct out as [|r out']; [done|]. simpl length.
    replace (0 <? S (length out'))%nat with true by done.
    apply clamp_bounds.
    + destruct (getProp data "activeIndex") as [| | |[| |q|]| | |]; done.
    + apply inject_Z_nonneg. lia.
  - by intros ->.
  - intros content' data' Hread' Hparse' Hidx.
    assert (data' = data) as -> by congruence.
    destruct out as [|r out']; [done|]. simpl length.
    replace (0 <? S (length out'))%nat with true by done.
    assert ((if String.eqb (typeof (getProp data "activeIndex")) "number"
                && Number_isFinite (as_number (getProp data "activeIndex"))
             then as_number (getProp data "activeIndex") else Finite 0) = Finite 0) as ->.
    { destruct (getProp data "activeIndex") as [| | |[| |q|]| | |]; done. }
    apply clamp_zero, inject_Z_nonneg. lia.
Qed.

(** C6.  loadAccounts never throws.  Whatever the read does, the call
    completes normally; when the file does not exist it returns null and
    logs nothing; on any other rejected read, on text that does not parse,
    and on the text null (whose accounts cannot be read), it logs the error
    and returns null. *)
Theorem loadAccounts_never_throws (w : World) :
  (exists r, fst (loadAccounts w) = Normal r)
  /\ (faults w (CallReadFile getStoragePath) = None ->
      files w !! getStoragePath = None ->
      loadAccounts w = (Normal None, w))
  /\ (forall code,
        faults w (CallReadFile getStoragePath) = Some code -> code <> "ENOENT" ->
        loadAccounts w =
        (Normal None,
         add_log (LogError "Failed to load account storage" (ErrnoException code)) w))
  /\ (forall content,
        readOutcome w = Normal content -> JSON_parse content = None ->
        loadAccounts w =
        (Normal None, add_log (LogError "Failed to load account storage" SyntaxError) w))
  /\ (forall content,
        readOutcome w = Normal content -> JSON_parse content = Some JNull ->
        loadAccounts w =
        (Normal None, add_log (LogError "Failed to load account storage" TypeError) w)).
Proof.
  rewrite loadAccounts_unfold. split_and!.
  - destruct (readOutcome w) as [content|e]; [|destruct (bool_decide _); eauto].
    destruct (JSON_parse content) as [data|]; [|eauto].
    destruct data; simpl; eauto;
      repeat match goal with |- context [negb ?b] => destruct b; simpl; eauto end.
  - intros Hf Hnone. unfold readOutcome, fs_readFile. by rewrite Hf, Hnone.
  - intros code Hf Hne. unfold readOutcome, fs_readFile. rewrite Hf. simpl.
    rewrite bool_decide_eq_false_2; [done | congruence].
  - intros content -> ->. done.
  - intros content -> ->. done.
Qed.

(** C7.  When the parsed document has a list under accounts and its
    version is not the number 1, loadAccounts returns null, without
    throwing, after a warning that carries the version found. *)
Theorem loadAccounts_rejects_other_versions (w : World) (content : string)
    (data : JSValue) (items : list JSValue) :
  readOutcome w = Normal content ->
  JSON_parse content = Some data ->
  getProp data "accounts" = JArray items ->
  strict_equals (getProp data "version") (JNumber (Finite 1)) = false ->
  loadAccounts w =
  (Normal None,
   add_log (LogWarn "Unknown storage version, ignoring" (Some (getProp data "version"))) w).
Proof.
  intros Hread Hparse Hacc Hver. rewrite loadAccounts_unfold, Hread, Hparse.
  destruct data; try done. by rewrite Hacc, Hver.
Qed.

Lemma mkdir_makes (p : path) (d : gset path) : p ∈ list_to_set (ancestors p) ∪ d.
Proof.
  apply elem_of_union. left. apply elem_of_list_to_set.
  unfold ancestors. apply list_elem_of_fmap.
  exists (length p). split; [by rewrite firstn_all | apply elem_of_seq; lia].
Qed.

(** *** saveAccounts and clearAccounts: main properties *)

(** C8.  saveAccounts first makes the parent directories and then writes
    JSON.stringify(storage, null, 2) to the storage path.  When neither
    call is rejected the write succeeds even if the directory was missing,
    and the file holds the new text whatever it held before; a rejected
    write, like a rejected mkdir, reaches the caller as the thrown error
    and leaves the files as they were. *)
Theorem saveAccounts_writes_or_throws (storage : AccountStorageV1) (w : World) :
  (faults w (CallMkdir (dirname getStoragePath)) = None ->
   faults w (CallWriteFile getStoragePath) = None ->
   exists w',
     saveAccounts storage w = (Normal tt, w')
     /\ files w' = <[getStoragePath := JSON_stringify storage 2]> (files w)
     /\ dirname getStoragePath ∈ dirs w'
     /\ log w' = log w)
  /\ (forall code,
        faults w (CallMkdir (dirname getStoragePath)) = None ->
        faults w (CallWriteFile getStoragePath) = Some code ->
        fst (saveAccounts storage w) = Throw (ErrnoException code)
        /\ files (snd (saveAccounts storage w)) = files w)
  /\ (forall code,
        faults w (CallMkdir (dirname getStoragePath)) = Some code ->
        saveAccounts storage w = (Throw (ErrnoException code), w)).
Proof.
  unfold saveAccounts, mbind, IO_bind, io_bind, fs_mkdir_recursive, fs_writeFile.
  split_and!.
  - intros -> Hw. cbn [faults files dirs log]. rewrite Hw.
    rewrite bool_decide_eq_true_2 by apply mkdir_makes.
    eexists. split; [done|]. cbn [faults files dirs log].
    split_and!; [done | apply mkdir_makes | done].
  - intros code -> Hw. cbn [faults files dirs log]. by rewrite Hw.
  - intros code ->. done.
Qed.

(** C9.  clearAccounts never raises.  Deleting a file that is already
    absent is a success that changes nothing, so a second call right after
    a first one completes normally and, when the first call was not
    rejected by the file system, leaves the world exactly as it found it;
    an unlink rejected for any other reason is logged and not propagated,
    and a second call never changes the files. *)
Theorem clearAccounts_never_raises (w : World) :
  (exists w', clearAccounts w = (Normal tt, w'))
  /\ (faults w (CallUnlink getStoragePath) = None ->
      files w !! getStoragePath = None ->
      clearAccounts w = (Normal tt, w))
  /\ (exists w'', clearAccounts (snd (clearAccounts w)) = (Normal tt, w''))
  /\ (faults w (CallUnlink getStoragePath) = None ->
      clearAccounts (snd (clearAccounts w)) = (Normal tt, snd (clearAccounts w)))
  /\ (forall code,
        faults w (CallUnlink getStoragePath) = Some code -> code <> "ENOENT" ->
        clearAccounts w =
        (Normal tt,
         add_log (LogError "Failed to clear account storage" (ErrnoException code)) w))
  /\ files (snd (clearAccounts (snd (clearAccounts w)))) = files (snd (clearAccounts w)).
Proof.
  assert (forall v, exists v', clearAccounts v = (Normal tt, v')) as Hnormal.
  { intros v. unfold clearAccounts, try_catch, fs_unlink.
    destruct (faults v (CallUnlink getStoragePath)) as [code|]; simpl.
    - destruct (bool_decide _); simpl; eauto.
    - destruct (files v !! getStoragePath); simpl; eauto. }
  assert (forall v, faults v (CallUnlink getStoragePath) = None ->
                    files v !! getStoragePath = None ->
                    clearAccounts v = (Normal tt, v)) as Habsent.
  { intros v Hf Hnone. unfold clearAccounts, try_catch, fs_unlink.
    by rewrite Hf, Hnone. }
  assert (faults w (CallUnlink getStoragePath) = None ->
          clearAccounts (snd (clearAccounts w)) = (Normal tt, snd (clearAccounts w)))
    as Htwice.
  { intros Hf. apply Habsent.
    - unfold clearAccounts, try_catch, fs_unlink. rewrite Hf.
      by destruct (files w !! getStoragePath).
    - unfold clearAccounts, try_catch, fs_unlink. rewrite Hf.
      destruct (files w !! getStoragePath) eqn:E; simpl; [|done].
      apply lookup_delete_eq. }
  assert (forall v code, faults v (CallUnlink getStoragePath) = Some code ->
                         faults (snd (clearAccounts v)) (CallUnlink getStoragePath) = Some code
                         /\ files (snd (clearAccounts v)) = files v) as Hrejected.
  { intros v code Hf. unfold clearAccounts, try_catch, fs_unlink. rewrite Hf. simpl.
    by destruct (bool_decide _). }
  split_and!; [done | apply Habsent | done | done | |].
  - intros code Hf Hne. unfold clearAccounts, try_catch, fs_unlink. rewrite Hf. simpl.
    rewrite bool_decide_eq_false_2; [done | congruence].
  - destruct (faults w (CallUnlink getStoragePath)) as [code|] eqn:Hf.
    + destruct (Hrejected w code Hf) as [Hf' _].
      by destruct (Hrejected _ code Hf') as [_ ->].
    + by rewrite Htwice.
Qed.

(** *** Further properties of deduplicateAccounts *)

Lemma sameKey_false a b : sameKey a b = false <-> ~ keyEq (identityKey a) (identityKey b).
Proof. unfold sameKey, keyEq. by destruct (SameValueZero _ _). Qed.

Lemma uniqueKeys_intro l :
  (forall i j a b, (i < j)%nat -> l !! i = Some a -> l !! j = Some b ->
                   ~ keyEq (identityKey a) (identityKey b)) ->
  uniqueKeys l.
Proof.
  induction l as [|x l IH]; intros H; simpl; [done|]. split.
  - intros b (j & Hj)%list_elem_of_lookup. apply (H 0%nat (S j) x b); [lia | done | done].
  - apply IH. intros i j a b Hij Ha Hb. apply (H (S i) (S j) a b); [lia | done | done].
Qed.

Lemma isPrimitive_keyEq k : isPrimitive k = true -> keyEq k k.
Proof.
  unfold keyEq. destruct k as [| |b|n|s|items|props]; simpl; try done.
  - by destruct b.
  - destruct n; simpl; try done. intros _. apply Qeq_bool_refl.
  - intros _. apply String.eqb_refl.
Qed.

Lemma scanStep_keeps_keys l m i e :
  e ∈ m -> exists e', e' ∈ scanStep l m i /\ fst e' = fst e.
Proof.
  intros He.
  destruct (scanStep_cases l m i)
    as [-> | [(a & _ & _ & _ & ->) | (a & x & m1 & k & m2 & _ & _ & -> & _ & ->)]].
  - by exists e.
  - exists e. split; [|done]. apply elem_of_app. by left.
  - apply elem_of_app in He as [He | [-> | He]%elem_of_cons].
    + exists e. split; [|done]. apply elem_of_app. by left.
    + exists (k, chosenIndex l x i a). split; [|done]. apply elem_of_app. right. by left.
    + exists e. split; [|done]. apply elem_of_app. right. by right.
Qed.

Lemma scan_keyPresent l n : keyPresent l n (scanned l n).
Proof.
  induction n as [|n IH]; [intros i a Hi; lia|].
  rewrite scanned_S. intros i a Hi Ha Hu Hp.
  destruct (decide (i = n)) as [->|Hne].
  - destruct (scanStep_usable l (scanned l n) n a Ha Hu)
      as [[_ ->] | (x & m1 & k & m2 & _ & Hk & ->)].
    + exists (identityKey a, n). split.
      * apply elem_of_app. right. by apply list_elem_of_singleton.
      * by apply isPrimitive_keyEq.
    + exists (k, chosenIndex l x n a). split; [|done]. apply elem_of_app. right. by left.
  - destruct (IH i a) as (e & He & Hk); [lia | done | done | done |].
    destruct (scanStep_keeps_keys l (scanned l n) n e He) as (e' & He' & Heq).
    exists e'. split; [done|]. by rewrite Heq.
Qed.

(** X1.  The identity keys of the records that deduplicateAccounts returns
    are pairwise different: no two output records share a key. *)
Theorem deduplicateAccounts_keys_unique (l : list JSValue) (i j : nat) (a b : JSValue) :
  (i < j)%nat ->
  deduplicateAccounts l !! i = Some a ->
  deduplicateAccounts l !! j = Some b ->
  sameKey a b = false.
Proof.
  intros Hij Ha Hb. apply sameKey_false.
  exact (uniqueKeys_lookup (deduplicateAccounts l) i j a b
           (deduplicateAccounts_uniqueKeys l) Hij Ha Hb).
Qed.

(** X2.  A list of truthy accounts with truthy, pairwise different identity
    keys is a fixed point of deduplicateAccounts: nothing is dropped and
    nothing is reordered. *)
Theorem deduplicateAccounts_fixed_point (l : list JSValue) :
  (forall a, a ∈ l -> truthy a = true /\ truthy (identityKey a) = true) ->
  (forall i j a b, (i < j)%nat -> l !! i = Some a -> l !! j = Some b -> sameKey a b = false) ->
  deduplicateAccounts l = l.
Proof.
  intros Hus Hkeys. apply deduplicateAccounts_fixed.
  - apply Forall_forall. intros a Ha. destruct (Hus a Ha) as [Ht Hk].
    unfold usable. by rewrite Ht, Hk.
  - apply uniqueKeys_intro. intros i j a b Hij Ha Hb.
    apply sameKey_false. by apply (Hkeys i j).
Qed.

(** X3.  deduplicateAccounts returns only truthy entries whose key
    accountId || refreshToken is truthy: holes, null entries and records
    with neither an accountId nor a refreshToken never survive. *)
Theorem deduplicateAccounts_drops_unusable (l : list JSValue) (a : JSValue) :
  a ∈ deduplicateAccounts l ->
  truthy a = true /\ truthy (identityKey a) = true.
Proof.
  intros Ha.
  pose proof (proj1 (Forall_forall _ _) (deduplicateAccounts_usable l) a Ha) as Hu.
  unfold usable in Hu. by apply andb_prop in Hu.
Qed.

(** X4.  deduplicateAccounts never loses an identity: for every truthy
    input account whose key is truthy and a primitive (a string, as the
    interface declares, or a number or boolean), some record with the same
    key is in the output. *)
Theorem deduplicateAccounts_keeps_every_key (l : list JSValue) (a : JSValue) :
  a ∈ l ->
  truthy a = true ->
  truthy (identityKey a) = true ->
  isPrimitive (identityKey a) = true ->
  exists b, b ∈ deduplicateAccounts l /\ sameKey a b = true.
Proof.
  intros (i & Hi)%list_elem_of_lookup Ht Hk Hp.
  destruct (scan_keyPresent l (length l) i a) as ([k j] & He & Hka).
  { by eapply lookup_lt_Some. }
  { done. }
  { unfold usable. by rewrite Ht, Hk. }
  { done. }
  destruct (scan_invariant l (length l)) as [Hok _].
  pose proof (proj1 (Forall_forall _ _) Hok _ He) as (_ & b & Hb & Hub & Hkb).
  simpl in *. exists b. split.
  - rewrite deduplicateAccounts_keepAt. apply elem_of_keepAt. exists j. split; [done|].
    simpl. unfold survives, Set_has. apply andb_true_intro. split.
    + apply bool_decide_eq_true, indicesToKeep_elem, list_elem_of_fmap. by exists (k, j).
    + unfold usable in Hub. by apply andb_prop in Hub as [-> _].
  - change (keyEq (identityKey a) (identityKey b)).
    apply keyEq_trans with k; [by apply keyEq_sym|].
    destruct Hkb as [-> | Hkb]; [|done].
    apply keyEq_trans with (identityKey a); [done | by apply keyEq_sym].
Qed.

(** *** Further properties of selectNewestAccount *)

(** X5.  selectNewestAccount on two records of the declared shape: without
    a current record the candidate is returned; the current record is
    returned only when the candidate has a smaller lastUsed, or the same
    lastUsed and a smaller addedAt; in every other case (greater lastUsed,
    or the same lastUsed and an addedAt that is not smaller) the candidate
    is returned. *)
Theorem selectNewestAccount_choice (i j : nat) (current candidate : JSValue) :
  isAccountMetadataV1 current = true ->
  isAccountMetadataV1 candidate = true ->
  selectNewestAccount None (j, candidate) = (j, candidate)
  /\ (num_lt (lastUsedOf candidate) (lastUsedOf current)
       \/ (num_eq (lastUsedOf candidate) (lastUsedOf current)
           /\ num_lt (addedAtOf candidate) (addedAtOf current)) ->
      selectNewestAccount (Some (i, current)) (j, candidate) = (i, current))
  /\ (num_lt (lastUsedOf current) (lastUsedOf candidate)
       \/ (num_eq (lastUsedOf candidate) (lastUsedOf current)
           /\ num_le (addedAtOf current) (addedAtOf candidate)) ->
      selectNewestAccount (Some (i, current)) (j, candidate) = (j, candidate)).
Proof.
  intros (Htb & (xb & Hxb & Nxb) & (yb & Hyb & Nyb))%record_fields
         (_ & (xc & Hxc & Nxc) & (yc & Hyc & Nyc))%record_fields.
  split; [done|].
  unfold selectNewestAccount, lastUsedOf, addedAtOf.
  simpl. rewrite Htb, Hxb, Hxc, Hyb, Hyc. simpl.
  unfold js_gt, js_lt, js_ge. rewrite !IsLessThan_orZero by done.
  unfold num_lt, num_eq, num_le.
  destruct (lessThan_total xb xc Nxb Nxc) as [[E1 E2] | [(E1 & E2 & Hx) | [E1 E2]]];
    rewrite E1, E2; simpl.
  - split; [|done]. intros [H | [H _]]; [congruence|].
    destruct xb, xc; simpl in *; try done.
    injection E1 as E1. apply Qlt_bool_iff in E1. apply Qeq_bool_iff in H. lra.
  - destruct (lessThan_total yb yc Nyb Nyc) as [[F1 F2] | [(F1 & F2 & Hy) | [F1 F2]]];
      rewrite ?F1, ?F2; simpl.
    + split; [|done]. intros [H | [_ H]]; congruence.
    + split; [|done]. intros [H | [_ H]]; congruence.
    + split; [done|]. intros [H | [_ H]]; congruence.
  - split; [done|]. intros [H | [H _]]; [congruence|].
    destruct xb, xc; simpl in *; try done.
    injection E2 as E2. apply Qlt_bool_iff in E2. apply Qeq_bool_iff in H. lra.
Qed.

(** *** Further properties of loadAccounts *)

Lemma clamp_stable (x : number) (k : Q) :
  Number_isFinite x = true -> (0 <= k)%Q ->
  Number_isFinite (Math_max (Finite 0) (Math_min x (Finite k))) = true
  /\ Math_max (Finite 0) (Math_min (Math_max (Finite 0) (Math_min x (Finite k))) (Finite k))
     = Math_max (Finite 0) (Math_min x (Finite k)).
Proof.
  destruct x as [| |q|]; try done. intros _ Hk.
  unfold Math_max, Math_min. simpl.
  destruct (Qlt_bool k q) eqn:E1; simpl.
  - destruct (Qlt_bool 0 k) eqn:E2; simpl.
    + assert (Qlt_bool k k = false) as -> by (apply Qlt_bool_false; lra).
      simpl. by rewrite E2.
    + assert (Qlt_bool k 0 = false) as -> by (apply Qlt_bool_false; lra). done.
  - destruct (Qlt_bool 0 q) eqn:E2; simpl.
    + rewrite E1. simpl. by rewrite E2.
    + assert (Qlt_bool k 0 = false) as -> by (apply Qlt_bool_false; lra). done.
Qed.

Lemma filter_all (P : JSValue -> bool) (l : list JSValue) :
  (forall a, a ∈ l -> P a = true) -> List.filter P l = l.
Proof.
  induction l as [|x l IH]; intros H; simpl; [done|].
  rewrite (H x) by left. f_equal. apply IH. intros a Ha. apply H. by right.
Qed.

Lemma acceptedDocument_stable data :
  acceptedDocument (storageValue (acceptedDocument data)) = acceptedDocument data.
Proof.
  unfold acceptedDocument, storageValue.
  set (out := deduplicateAccounts
                (List.filter validAccount (array_items (getProp data "accounts")))).
  set (x := if String.eqb (typeof (getProp data "activeIndex")) "number" && _
            then _ else Finite 0).
  simpl.
  assert (List.filter validAccount out = out) as ->.
  { apply filter_all. intros a Ha. subst out. rewrite deduplicateAccounts_keepAt in Ha.
    apply elem_of_keepAt in Ha as (i & Hi & _).
    by apply list_elem_of_lookup_2, list_elem_of_In, filter_In in Hi as [_ Hv]. }
  assert (deduplicateAccounts out = out) as ->.
  { subst out. apply deduplicateAccounts_fixed;
      [apply deduplicateAccounts_usable | apply deduplicateAccounts_uniqueKeys]. }
  f_equal.
  destruct (0 <? length out)%nat eqn:Hlen; [|done].
  assert (Number_isFinite x = true) as Hx.
  { subst x. destruct (getProp data "activeIndex") as [| | |[| |q|]| | |]; done. }
  apply Nat.ltb_lt in Hlen.
  destruct (clamp_stable x (inject_Z (Z.of_nat (length out) - 1)) Hx) as [Hfin Hst].
  { apply inject_Z_nonneg. lia. }
  unfold number_of_Z. rewrite Hfin. exact Hst.
Qed.

(** X6.  When the parsed document is neither null nor undefined and its
    accounts member is not an array (absent, or of another type), whatever
    its version, loadAccounts returns null after the warning "Invalid
    storage format, ignoring". *)
Theorem loadAccounts_rejects_non_list (w : World) (content : string) (data : JSValue) :
  readOutcome w = Normal content ->
  JSON_parse content = Some data ->
  data <> JNull -> data <> JUndefined ->
  Array_isArray (getProp data "accounts") = false ->
  loadAccounts w
  = (Normal None, add_log (LogWarn "Invalid storage format, ignoring" None) w).
Proof.
  intros Hread Hparse Hnull Hundef Hacc. rewrite loadAccounts_unfold, Hread, Hparse.
  destruct data; try done; by rewrite Hacc.
Qed.

(** X7.  loadAccounts only reads: whatever happens, the files, the
    directories and the file system's behaviour are as before, and the log
    is as before or longer by one record. *)
Theorem loadAccounts_read_only (w : World) :
  files (snd (loadAccounts w)) = files w
  /\ dirs (snd (loadAccounts w)) = dirs w
  /\ faults (snd (loadAccounts w)) = faults w
  /\ (log (snd (loadAccounts w)) = log w
      \/ exists entry, log (snd (loadAccounts w)) = log w ++ [entry]).
Proof.
  rewrite loadAccounts_unfold.
  destruct (readOutcome w) as [content|e].
  - destruct (JSON_parse content) as [data|]; [|simpl; eauto 6].
    destruct data; simpl; eauto 6;
      repeat match goal with |- context [negb ?b] => destruct b; simpl; eauto 6 end.
  - destruct (bool_decide _); simpl; eauto 6.
Qed.

(** X8.  Every document that loadAccounts returns has version 1 and
    accounts whose identity keys are pairwise different. *)
Theorem loadAccounts_keys_unique (w : World) (st : AccountStorageV1) :
  fst (loadAccounts w) = Normal (Some st) ->
  version st = Finite 1
  /\ forall i j a b, (i < j)%nat -> accounts st !! i = Some a -> accounts st !! j = Some b ->
                     sameKey a b = false.
Proof.
  intros (content & data & _ & _ & -> & _)%loadAccounts_accepts.
  split; [done|]. intros i j a b Hij Ha Hb. apply sameKey_false.
  exact (uniqueKeys_lookup _ i j a b (deduplicateAccounts_uniqueKeys _) Hij Ha Hb).
Qed.

(** X9.  How loadAccounts clamps a stored activeIndex that is a finite
    number, when accounts are returned: a negative index becomes 0, an
    index beyond the last account becomes the last index, and an index
    within range is returned as it is. *)
Theorem loadAccounts_activeIndex_exact (w : World) (st : AccountStorageV1)
    (content : string) (data : JSValue) (q : Q) :
  fst (loadAccounts w) = Normal (Some st) ->
  readOutcome w = Normal content ->
  JSON_parse content = Some data ->
  getProp data "activeIndex" = JNumber (Finite q) ->
  accounts st <> [] ->
  ((q < 0)%Q -> num_eq (activeIndex st) (Finite 0))
  /\ ((0 <= q)%Q -> (q <= inject_Z (Z.of_nat (length (accounts st)) - 1))%Q ->
      num_eq (activeIndex st) (Finite q))
  /\ ((inject_Z (Z.of_nat (length (accounts st)) - 1) < q)%Q ->
      num_eq (activeIndex st) (number_of_Z (Z.of_nat (length (accounts st)) - 1))).
Proof.
  intros (content' & data' & Hread' & Hparse' & -> & _)%loadAccounts_accepts Hread Hparse Hq.
  assert (data' = data) as -> by congruence.
  unfold acceptedDocument. simpl. rewrite Hq. simpl.
  set (out := deduplicateAccounts _). intros Hne.
  destruct out as [|r out']; [done|]. simpl length.
  replace (0 <? S (length out'))%nat with true by done.
  set (k := inject_Z (Z.of_nat (S (length out')) - 1)).
  assert (0 <= k)%Q as Hk by (apply inject_Z_nonneg; lia).
  unfold num_eq, number_of_Z, Math_max, Math_min. fold k. simpl.
  split_and!.
  - intros Hneg.
    assert (Qlt_bool k q = false) as -> by (apply Qlt_bool_false; lra). simpl.
    assert (Qlt_bool 0 q = false) as -> by (apply Qlt_bool_false; lra). done.
  - intros H0 Hle.
    assert (Qlt_bool k q = false) as -> by (apply Qlt_bool_false; lra). simpl.
    destruct (Qlt_bool 0 q) eqn:E; simpl; apply Qeq_bool_iff; [reflexivity|].
    apply Qlt_bool_false in E. lra.
  - intros Hgt.
    assert (Qlt_bool k q = true) as -> by (apply Qlt_bool_iff; lra). simpl.
    destruct (Qlt_bool 0 k) eqn:E; simpl; apply Qeq_bool_iff; [reflexivity|].
    apply Qlt_bool_false in E. lra.
Qed.

(** *** How the three operations compose *)

Lemma saveAccounts_world storage w :
  faults w (CallMkdir (dirname getStoragePath)) = None ->
  faults w (CallWriteFile getStoragePath) = None ->
  saveAccounts storage w
  = (Normal tt,
     mkWorld (<[getStoragePath := JSON_stringify storage 2]> (files w))
             (list_to_set (ancestors (dirname getStoragePath)) ∪ dirs w)
             (faults w) (log w)).
Proof.
  intros Hm Hw.
  unfold saveAccounts, mbind, IO_bind, io_bind, fs_mkdir_recursive, fs_writeFile.
  rewrite Hm. cbn [faults files dirs log]. rewrite Hw.
  by rewrite bool_decide_eq_true_2 by apply mkdir_makes.
Qed.

Lemma clearAccounts_files w :
  faults w (CallUnlink getStoragePath) = None ->
  files (snd (clearAccounts w)) = delete getStoragePath (files w)
  /\ dirs (snd (clearAccounts w)) = dirs w
  /\ faults (snd (clearAccounts w)) = faults w
  /\ log (snd (clearAccounts w)) = log w.
Proof.
  intros Hf. unfold clearAccounts, try_catch, fs_unlink. rewrite Hf.
  destruct (files w !! getStoragePath) eqn:E; simpl; [done|].
  split_and!; try done. symmetry. by apply delete_id.
Qed.

(** X10.  Saving a document that loadAccounts returned and loading again
    gives back the same document, with nothing logged, provided the file
    system rejects none of the three calls and the host's JSON.parse reads
    the text JSON.stringify wrote for the document as that document. *)
Theorem save_then_load (w : World) (st : AccountStorageV1) :
  fst (loadAccounts w) = Normal (Some st) ->
  faults w (CallMkdir (dirname getStoragePath)) = None ->
  faults w (CallWriteFile getStoragePath) = None ->
  faults w (CallReadFile getStoragePath) = None ->
  JSON_parse (JSON_stringify st 2) = Some (storageValue st) ->
  loadAccounts (snd (saveAccounts st w)) = (Normal (Some st), snd (saveAccounts st w)).
Proof.
  intros (content & data & _ & _ & -> & _)%loadAccounts_accepts Hm Hw Hr Hparse.
  rewrite saveAccounts_world by done. cbn [snd].
  rewrite loadAccounts_unfold. unfold readOutcome, fs_readFile. cbn [faults files].
  rewrite Hr, lookup_insert_eq. cbn [fst]. rewrite Hparse.
  unfold storageValue at 1 2 3.
  cbn [getProp lookup_prop]. simpl String.eqb. cbn iota.
  replace (JObject _) with (storageValue (acceptedDocument data)) by done.
  by rewrite acceptedDocument_stable.
Qed.

(** X11.  After a clearAccounts whose unlink the file system did not
    reject, loadAccounts finds no prior state: it returns null and logs
    nothing (provided the read is not rejected either). *)
Theorem clear_then_load (w : World) :
  faults w (CallUnlink getStoragePath) = None ->
  faults w (CallReadFile getStoragePath) = None ->
  loadAccounts (snd (clearAccounts w)) = (Normal None, snd (clearAccounts w)).
Proof.
  intros Hu Hr. destruct (clearAccounts_files w Hu) as (Hfiles & _ & Hfaults & _).
  rewrite loadAccounts_unfold. unfold readOutcome, fs_readFile.
  rewrite Hfaults, Hr, Hfiles, lookup_delete_eq. done.
Qed.

(** X12.  saveAccounts touches nothing but the storage file and its
    directories, whether it succeeds or throws: every other file is as
    before, no directory disappears and nothing is logged. *)
Theorem saveAccounts_writes_only_storage (storage : AccountStorageV1) (w : World) :
  (forall p, p <> getStoragePath ->
             files (snd (saveAccounts storage w)) !! p = files w !! p)
  /\ dirs w ⊆ dirs (snd (saveAccounts storage w))
  /\ log (snd (saveAccounts storage w)) = log w.
Proof.
  unfold saveAccounts, mbind, IO_bind, io_bind, fs_mkdir_recursive, fs_writeFile.
  destruct (faults w (CallMkdir (dirname getStoragePath))) as [code|]; [by split_and!|].
  cbn [faults files dirs log].
  destruct (faults w (CallWriteFile getStoragePath)) as [code|].
  { split_and!; [done | cbn [snd dirs]; apply union_subseteq_r | done]. }
  rewrite bool_decide_eq_true_2 by apply mkdir_makes. cbn [fst snd files dirs log].
  split_and!; [| apply union_subseteq_r | done].
  intros p Hp. by rewrite lookup_insert_ne.
Qed.

(** X13.  clearAccounts removes nothing but the storage file: every other
    file and every directory is as before; and when its unlink was not
    rejected the storage file is absent afterwards. *)
Theorem clearAccounts_removes_only_storage (w : World) :
  (forall p, p <> getStoragePath ->
             files (snd (clearAccounts w)) !! p = files w !! p)
  /\ dirs (snd (clearAccounts w)) = dirs w
  /\ (faults w (CallUnlink getStoragePath) = None ->
      files (snd (clearAccounts w)) !! getStoragePath = None).
Proof.
  unfold clearAccounts, try_catch, fs_unlink.
  destruct (faults w (CallUnlink getStoragePath)) as [code|]; simpl.
  - by destruct (bool_decide _).
  - destruct (files w !! getStoragePath) eqn:E; simpl.
    + split_and!; [|done|].
      * intros p Hp. by rewrite lookup_delete_ne.
      * intros _. apply lookup_delete_eq.
    + by split_and!.
Qed.

(** X14.  The last save wins: when the file system rejects nothing, saving
    one document and then another leaves the world as saving the second
    alone does. *)
Theorem saveAccounts_last_write_wins (first second : AccountStorageV1) (w : World) :
  faults w (CallMkdir (dirname getStoragePath)) = None ->
  faults w (CallWriteFile getStoragePath) = None ->
  saveAccounts second (snd (saveAccounts first w)) = saveAccounts second w.
Proof.
  intros Hm Hw. rewrite (saveAccounts_world first w Hm Hw). cbn [snd].
  rewrite !saveAccounts_world by done. cbn [files dirs faults log].
  f_equal. f_equal.
  - apply insert_insert_eq.
  - by rewrite (assoc_L (∪)), (idemp_L (∪)).
Qed.

(** *** Property lists *)

Lemma lookup_set_prop_eq name v props : lookup_prop name (set_prop name v props) = v.
Proof.
  induction props as [|[k x] props IH]; simpl.
  - by rewrite String.eqb_refl.
  - destruct (String.eqb k name) eqn:E; simpl; by rewrite E.
Qed.

Lemma lookup_set_prop_ne name name' v props :
  name <> name' -> lookup_prop name' (set_prop name v props) = lookup_prop name' props.
Proof.
  intros Hne. induction props as [|[k x] props IH]; simpl.
  - by rewrite (proj2 (String.eqb_neq name name') Hne).
  - destruct (String.eqb k name) eqn:E; simpl.
    + apply String.eqb_eq in E as ->. by rewrite (proj2 (String.eqb_neq name name') Hne).
    + by rewrite IH.
Qed.

Lemma lookup_delete_prop_ne name name' props :
  name <> name' ->
  lookup_prop name' (List.filter (fun p => negb (String.eqb (fst p) name)) props)
  = lookup_prop name' props.
Proof.
  intros Hne. induction props as [|[k x] props IH]; simpl; [done|].
  destruct (String.eqb k name) eqn:E; simpl.
  - apply String.eqb_eq in E as ->. by rewrite (proj2 (String.eqb_neq name name') Hne).
  - by rewrite IH.
Qed.

Lemma lookup_delete_prop_eq name props :
  lookup_prop name (List.filter (fun p => negb (String.eqb (fst p) name)) props) = JUndefined.
Proof.
  induction props as [|[k x] props IH]; simpl; [done|].
  destruct (String.eqb k name) eqn:E; simpl; [done|]. by rewrite E.
Qed.

Lemma getProp_setProp_eq props name v : getProp (setProp (JObject props) name v) name = v.
Proof. apply lookup_set_prop_eq. Qed.

Lemma getProp_setProp_ne obj name name' v :
  name <> name' -> getProp (setProp obj name v) name' = getProp obj name'.
Proof. intros Hne. destruct obj; simpl; try done. by apply lookup_set_prop_ne. Qed.

Lemma getProp_deleteProp_ne obj name name' :
  name <> name' -> getProp (deleteProp obj name) name' = getProp obj name'.
Proof. intros Hne. destruct obj; simpl; try done. by apply lookup_delete_prop_ne. Qed.

Lemma isPlainObject_setProp obj name v : isPlainObject (setProp obj name v) = isPlainObject obj.
Proof. by destruct obj. Qed.

Lemma isPlainObject_deleteProp obj name : isPlainObject (deleteProp obj name) = isPlainObject obj.
Proof. by destruct obj. Qed.

Lemma isObject_cases v : isObject v = true <-> (exists props, v = JObject props) \/ (exists items, v = JArray items).
Proof.
  unfold isObject. destruct v as [| |b|n|s|items|props]; simpl; split; try done;
    try (intros [[? [=]] | [? [=]]]); eauto.
  - by destruct b.
  - intros H. apply andb_prop in H as [_ H]. done.
  - intros H. apply andb_prop in H as [_ H]. done.
Qed.

Lemma ownValues_mapOwnValues f v : ownValues (mapOwnValues f v) = map f (ownValues v).
Proof.
  destruct v as [| |b|n|s|items|props]; simpl; try done.
  rewrite !map_map. done.
Qed.

Lemma mapOwnValues_ext f g v :
  (forall c, c ∈ ownValues v -> f c = g c) -> mapOwnValues f v = mapOwnValues g v.
Proof.
  destruct v as [| |b|n|s|items|props]; simpl; try done; intros H; f_equal.
  - apply map_ext_in. intros c Hc. apply H. by apply list_elem_of_In.
  - apply map_ext_in. intros [k c] Hc. simpl. f_equal. apply H.
    apply list_elem_of_In, in_map_iff. by exists (k, c).
Qed.

Lemma hasOwnProperty_mapOwnValues f v name :
  hasOwnProperty (mapOwnValues f v) name = hasOwnProperty v name.
Proof.
  destruct v as [| |b|n|s|items|props]; simpl; try done.
  - by rewrite length_map.
  - by rewrite map_map.
Qed.

Lemma isObject_mapOwnValues f v : isObject (mapOwnValues f v) = isObject v.
Proof. by destruct v. Qed.

Lemma Object_keys_empty_mapOwnValues f v :
  Object_keys_empty (mapOwnValues f v) = Object_keys_empty v.
Proof. destruct v as [| |b|n|s|[|? ?]|[|? ?]]; done. Qed.

Lemma list_max_elem (l : list nat) x : x ∈ l -> (x <= list_max l)%nat.
Proof.
  induction l as [|y l IH]; [by intros ?%elem_of_nil|].
  intros [->|H]%elem_of_cons; simpl; [lia|]. specialize (IH H). lia.
Qed.

Lemma depth_ownValues v c : c ∈ ownValues v -> (depth c < depth v)%nat.
Proof.
  destruct v as [| |b|n|s|items|props]; simpl; try by intros ?%elem_of_nil.
  - intros Hc. apply Nat.lt_succ_r, list_max_elem, list_elem_of_fmap. by exists c.
  - intros (p & -> & Hp)%list_elem_of_fmap.
    apply Nat.lt_succ_r, list_max_elem, list_elem_of_fmap. by exists p.
Qed.

Lemma depth_getProp v name : isObject v = true -> (depth (getProp v name) < depth v)%nat.
Proof.
  intros [[props ->] | [items ->]]%isObject_cases; simpl; [|lia].
  induction props as [|[k x] props IH]; simpl; [lia|].
  destruct (String.eqb k name); simpl in *; lia.
Qed.

(** *** cleanupSchema: the recursion terminates within the nesting depth *)

Lemma getProp_filterRequired s name :
  name <> "required" -> getProp (filterRequired s) name = getProp s name.
Proof.
  intros Hne. unfold filterRequired.
  destruct (Array_isArray _ && isObject _); [|done].
  destruct (_ =? 0)%nat; [by apply getProp_deleteProp_ne|].
  destruct (negb _); [by apply getProp_setProp_ne | done].
Qed.

Lemma getProp_injectPlaceholder s name :
  name <> "properties" -> getProp (injectPlaceholder s) name = getProp s name.
Proof.
  intros Hne. unfold injectPlaceholder.
  destruct (strict_equals _ _ && _); [by apply getProp_setProp_ne | done].
Qed.

Lemma isPlainObject_filterRequired s : isPlainObject (filterRequired s) = isPlainObject s.
Proof.
  unfold filterRequired. destruct (Array_isArray _ && isObject _); [|done].
  destruct (_ =? 0)%nat; [apply isPlainObject_deleteProp|].
  destruct (negb _); [apply isPlainObject_setProp | done].
Qed.

Lemma isPlainObject_injectPlaceholder s : isPlainObject (injectPlaceholder s) = isPlainObject s.
Proof.
  unfold injectPlaceholder.
  destruct (strict_equals _ _ && _); [apply isPlainObject_setProp | done].
Qed.

Lemma properties_after_steps s :
  getProp (injectPlaceholder (filterRequired s)) "properties" = placeholderProperties
  \/ getProp (injectPlaceholder (filterRequired s)) "properties" = getProp s "properties".
Proof.
  unfold injectPlaceholder.
  destruct (strict_equals _ _ && _) eqn:E.
  - left. destruct (filterRequired s) eqn:F; try done. apply getProp_setProp_eq.
  - right. by apply getProp_filterRequired.
Qed.

Lemma recursionTarget_cases s c :
  isObject s = true -> recursionTarget s c ->
  c = placeholderSchema \/ (depth c < depth s)%nat.
Proof.
  intros Hs [Hc | ->].
  - destruct (properties_after_steps s) as [E | E]; rewrite E in Hc.
    + left. simpl in Hc. by apply list_elem_of_singleton in Hc.
    + right. apply depth_ownValues in Hc.
      pose proof (depth_getProp s "properties" Hs). lia.
  - right. by apply depth_getProp.
Qed.

Lemma cleanupBody_ext f g s :
  (forall c, recursionTarget s c -> f c = g c) -> cleanupBody f s = cleanupBody g s.
Proof.
  intros H. unfold cleanupBody. destruct (negb (isObject s)); [done|].
  set (s2 := injectPlaceholder (filterRequired s)).
  assert (mapOwnValues f (getProp s2 "properties") = mapOwnValues g (getProp s2 "properties"))
    as Hmap.
  { apply mapOwnValues_ext. intros c Hc. apply H. by left. }
  rewrite Hmap.
  set (s3 := if isObject (getProp s2 "properties") then _ else s2).
  assert (getProp s3 "items" = getProp s "items") as Hitems.
  { subst s3. destruct (isObject (getProp s2 "properties")).
    - rewrite getProp_setProp_ne by done. subst s2.
      rewrite getProp_injectPlaceholder by done. by apply getProp_filterRequired.
    - subst s2. rewrite getProp_injectPlaceholder by done. by apply getProp_filterRequired. }
  rewrite Hitems. rewrite (H (getProp s "items")) by by right. done.
Qed.

Lemma cleanupSchema_fuel_S fuel s :
  cleanupSchema_fuel (S fuel) s = cleanupBody (cleanupSchema_fuel fuel) s.
Proof. done. Qed.

Lemma cleanupSchema_fuel_placeholder fuel :
  cleanupSchema_fuel fuel placeholderSchema = placeholderSchema.
Proof. by destruct fuel. Qed.

Lemma depth_zero_inert rec s : depth s = 0%nat -> cleanupBody rec s = s.
Proof.
  intros Hd. unfold cleanupBody.
  destruct (isObject s) eqn:E; [|done].
  apply isObject_cases in E as [[props ->] | [items ->]]; done.
Qed.

Lemma fuel_enough f1 f2 s :
  (depth s <= f1)%nat -> (depth s <= f2)%nat ->
  cleanupSchema_fuel f1 s = cleanupSchema_fuel f2 s.
Proof.
  revert f2 s. induction f1 as [|f1 IH]; intros f2 s H1 H2.
  - destruct f2 as [|f2]; [done|]. rewrite cleanupSchema_fuel_S. simpl.
    symmetry. apply depth_zero_inert. lia.
  - destruct f2 as [|f2].
    + rewrite cleanupSchema_fuel_S. simpl. apply depth_zero_inert. lia.
    + rewrite !cleanupSchema_fuel_S.
      destruct (isObject s) eqn:Hs; [|unfold cleanupBody; by rewrite Hs].
      apply cleanupBody_ext. intros c Hc.
      destruct (recursionTarget_cases s c Hs Hc) as [-> | Hlt].
      * by rewrite !cleanupSchema_fuel_placeholder.
      * apply IH; lia.
Qed.

(** cleanupSchema satisfies the recursive equation of the source. *)
Lemma cleanupSchema_equation s : cleanupSchema s = cleanupBody cleanupSchema s.
Proof.
  unfold cleanupSchema at 1.
  destruct (depth s) as [|d] eqn:Hd.
  - simpl. symmetry. by apply depth_zero_inert.
  - rewrite cleanupSchema_fuel_S.
    destruct (isObject s) eqn:Hs; [|unfold cleanupBody; by rewrite Hs].
    apply cleanupBody_ext. intros c Hc. unfold cleanupSchema.
    destruct (recursionTarget_cases s c Hs Hc) as [-> | Hlt].
    + by rewrite !cleanupSchema_fuel_placeholder.
    + apply fuel_enough; lia.
Qed.

(** *** cleanupSchema: what each member of the result is *)

Lemma cleanupSchema_not_plain s : isPlainObject s = false -> cleanupSchema s = s.
Proof.
  intros Hs. rewrite cleanupSchema_equation. unfold cleanupBody.
  destruct (isObject s) eqn:E; [|done].
  apply isObject_cases in E as [[props ->] | [items ->]]; done.
Qed.

Lemma cleanupSchema_plain props :
  cleanupSchema (JObject props) =
  let s2 := injectPlaceholder (filterRequired (JObject props)) in
  let s3 := if isObject (getProp s2 "properties")
            then setProp s2 "properties" (mapOwnValues cleanupSchema (getProp s2 "properties"))
            else s2 in
  if isObject (getProp s3 "items")
  then setProp s3 "items" (cleanupSchema (getProp s3 "items"))
  else s3.
Proof. by rewrite cleanupSchema_equation at 1. Qed.

Lemma isPlainObject_cleanupSchema s : isPlainObject (cleanupSchema s) = isPlainObject s.
Proof.
  destruct (isPlainObject s) eqn:Hs; [|by rewrite cleanupSchema_not_plain].
  destruct s as [| |b|n|str|items|props]; try done.
  rewrite cleanupSchema_plain. cbv zeta.
  set (s2 := injectPlaceholder (filterRequired (JObject props))).
  assert (isPlainObject s2 = true) as H2.
  { subst s2. by rewrite isPlainObject_injectPlaceholder, isPlainObject_filterRequired. }
  destruct (isObject (getProp s2 "properties"));
    destruct (isObject (getProp _ "items")); by rewrite ?isPlainObject_setProp.
Qed.

Lemma cleanupSchema_other s name :
  name <> "required" -> name <> "properties" -> name <> "items" ->
  getProp (cleanupSchema s) name = getProp s name.
Proof.
  intros Hr Hp Hi.
  destruct (isPlainObject s) eqn:Hs; [|by rewrite cleanupSchema_not_plain].
  destruct s as [| |b|n|str|items|props]; try done.
  rewrite cleanupSchema_plain. cbv zeta.
  set (s2 := injectPlaceholder (filterRequired (JObject props))).
  assert (getProp s2 name = getProp (JObject props) name) as H2.
  { subst s2. rewrite getProp_injectPlaceholder by done. by apply getProp_filterRequired. }
  destruct (isObject (getProp s2 "properties"));
    destruct (isObject (getProp _ "items"));
    by rewrite ?getProp_setProp_ne by done.
Qed.

Lemma cleanupSchema_required_member s :
  getProp (cleanupSchema s) "required" = getProp (filterRequired s) "required".
Proof.
  destruct (isPlainObject s) eqn:Hs.
  - destruct s as [| |b|n|str|items|props]; try done.
    rewrite cleanupSchema_plain. cbv zeta.
    set (s2 := injectPlaceholder (filterRequired (JObject props))).
    assert (getProp s2 "required" = getProp (filterRequired (JObject props)) "required") as H2.
    { subst s2. by rewrite getProp_injectPlaceholder. }
    destruct (isObject (getProp s2 "properties"));
      destruct (isObject (getProp _ "items"));
      by rewrite ?getProp_setProp_ne by done.
  - rewrite cleanupSchema_not_plain by done.
    destruct s as [| |b|n|str|items|props]; done.
Qed.

Lemma cleanupSchema_properties_member s :
  getProp (cleanupSchema s) "properties" =
  let P := getProp (injectPlaceholder (filterRequired s)) "properties" in
  if isObject P then mapOwnValues cleanupSchema P else P.
Proof.
  destruct (isPlainObject s) eqn:Hs.
  - destruct s as [| |b|n|str|items|props]; try done.
    rewrite cleanupSchema_plain. cbv zeta.
    set (s2 := injectPlaceholder (filterRequired (JObject props))).
    assert (isPlainObject s2 = true) as H2.
    { subst s2. by rewrite isPlainObject_injectPlaceholder, isPlainObject_filterRequired. }
    destruct s2 as [| |b|n|str|items|props2] eqn:E2; try done.
    destruct (isObject (getProp (JObject props2) "properties")) eqn:HP.
    + destruct (isObject (getProp _ "items"));
        rewrite ?getProp_setProp_ne by done; apply getProp_setProp_eq.
    + destruct (isObject (getProp _ "items")); by rewrite ?getProp_setProp_ne by done.
  - rewrite cleanupSchema_not_plain by done.
    destruct s as [| |b|n|str|items|props]; done.
Qed.

Lemma cleanupSchema_items_member s :
  getProp (cleanupSchema s) "items" =
  if isObject (getProp s "items") then cleanupSchema (getProp s "items") else getProp s "items".
Proof.
  destruct (isPlainObject s) eqn:Hs.
  - destruct s as [| |b|n|str|items|props]; try done.
    rewrite cleanupSchema_plain. cbv zeta.
    set (s2 := injectPlaceholder (filterRequired (JObject props))).
    assert (isPlainObject s2 = true) as H2.
    { subst s2. by rewrite isPlainObject_injectPlaceholder, isPlainObject_filterRequired. }
    assert (getProp s2 "items" = getProp (JObject props) "items") as Hi.
    { subst s2. rewrite getProp_injectPlaceholder by done. by apply getProp_filterRequired. }
    set (s3 := if isObject (getProp s2 "properties") then _ else s2).
    assert (isPlainObject s3 = true /\ getProp s3 "items" = getProp (JObject props) "items")
      as [H3 Hi3].
    { subst s3. destruct (isObject (getProp s2 "properties")).
      - by rewrite isPlainObject_setProp, getProp_setProp_ne.
      - done. }
    rewrite Hi3. destruct (isObject (getProp (JObject props) "items")); [|done].
    destruct s3; try done. apply getProp_setProp_eq.
  - rewrite cleanupSchema_not_plain by done.
    destruct s as [| |b|n|str|items|props]; done.
Qed.

Lemma filter_length_all {A} (P : A -> bool) (l : list A) :
  length (List.filter P l) = length l -> forall x, In x l -> P x = true.
Proof.
  induction l as [|y l IH]; simpl; [done|].
  pose proof (filter_length_le P l) as Hle.
  destruct (P y) eqn:E; simpl; intros Hlen x [<- | Hx]; try done; try lia.
  apply IH; [lia | done].
Qed.

Lemma filterRequired_valid s key :
  In key (array_items (getProp (filterRequired s) "required")) ->
  isObject (getProp s "properties") = true ->
  hasOwnProperty (getProp s "properties") (propertyKey key) = true.
Proof.
  unfold filterRequired. intros Hkey HP. rewrite HP, andb_true_r in Hkey.
  destruct (Array_isArray (getProp s "required")) eqn:Harr.
  - set (valid := List.filter _ _) in Hkey.
    destruct (length valid =? 0)%nat eqn:H0.
    + destruct s; simpl in Hkey; try done. by rewrite lookup_delete_prop_eq in Hkey.
    + destruct (negb (length valid =? length _)%nat) eqn:Hlen.
      * destruct s; simpl in Hkey; try done. rewrite lookup_set_prop_eq in Hkey.
        simpl in Hkey. by apply filter_In in Hkey as [_ Hkey].
      * apply negb_false_iff, Nat.eqb_eq in Hlen.
        by apply (filter_length_all _ _ Hlen).
  - by destruct (getProp s "required").
Qed.

Lemma cleanupSchema_object_nonempty s :
  strict_equals (getProp s "type") (JString "object") = true ->
  truthy (getProp (cleanupSchema s) "properties") = true
  /\ Object_keys_empty (getProp (cleanupSchema s) "properties") = false.
Proof.
  intros Htype. rewrite cleanupSchema_properties_member. cbv zeta.
  unfold injectPlaceholder.
  rewrite (getProp_filterRequired s "type"), (getProp_filterRequired s "properties") by done.
  rewrite Htype. simpl.
  destruct (negb (truthy (getProp s "properties")) || Object_keys_empty (getProp s "properties"))
    eqn:E.
  - assert (isPlainObject (filterRequired s) = true) as Hplain.
    { rewrite isPlainObject_filterRequired. by destruct s. }
    destruct (filterRequired s) as [| |b|n|str|items|props]; try done.
    rewrite getProp_setProp_eq. done.
  - apply orb_false_iff in E as [Ht Hk]. apply negb_false_iff in Ht.
    rewrite getProp_filterRequired by done.
    destruct (isObject (getProp s "properties")) eqn:HP; [|done].
    rewrite Object_keys_empty_mapOwnValues. split; [|done].
    by apply isObject_cases in HP as [[props ->] | [items ->]].
Qed.

Lemma nestedSchema_cleaned s t :
  nestedSchema (cleanupSchema s) t -> exists t0, t = cleanupSchema t0.
Proof.
  induction 1 as [| s' t Hnested [s0 ->] Hobj Ht | s' Hnested [s0 ->] Hobj].
  - by exists s.
  - rewrite cleanupSchema_properties_member in Hobj, Ht. cbv zeta in Hobj, Ht.
    destruct (isObject (getProp (injectPlaceholder (filterRequired s0)) "properties")) eqn:E.
    + rewrite ownValues_mapOwnValues in Ht.
      apply list_elem_of_fmap in Ht as (c & -> & _). by exists c.
    + congruence.
  - rewrite cleanupSchema_items_member in Hobj |- *.
    destruct (isObject (getProp s0 "items")) eqn:E; [|congruence].
    by exists (getProp s0 "items").
Qed.

(** *** cleanupSchema: properties *)

(** X15.  When the properties member of a schema is a plain object, every
    entry that cleanupSchema leaves in the required array names an own
    property of the properties member of the result. *)
Theorem cleanupSchema_required_defined (schema key : JSValue) :
  isPlainObject (getProp schema "properties") = true ->
  key ∈ array_items (getProp (cleanupSchema schema) "required") ->
  hasOwnProperty (getProp (cleanupSchema schema) "properties") (propertyKey key) = true.
Proof.
  intros Hplain Hkey.
  assert (isObject (getProp schema "properties") = true) as HP.
  { by destruct (getProp schema "properties"). }
  rewrite cleanupSchema_required_member in Hkey.
  apply list_elem_of_In in Hkey.
  pose proof (filterRequired_valid schema key Hkey HP) as Hown.
  rewrite cleanupSchema_properties_member. cbv zeta.
  unfold injectPlaceholder.
  rewrite (getProp_filterRequired schema "type"),
          (getProp_filterRequired schema "properties") by done.
  destruct (strict_equals _ _ && _) eqn:E.
  - apply andb_prop in E as [_ E].
    destruct (getProp schema "properties") as [| |b|n|str|items|[|p props]]; try done.
  - rewrite getProp_filterRequired, HP by done.
    by rewrite hasOwnProperty_mapOwnValues.
Qed.

(** X16.  The required array is filtered only against a properties member
    that is an object: when the schema has no such member, cleanupSchema
    leaves required exactly as it was (also when it then adds the
    placeholder property). *)
Theorem cleanupSchema_required_untouched (schema : JSValue) :
  isObject (getProp schema "properties") = false ->
  getProp (cleanupSchema schema) "required" = getProp schema "required".
Proof.
  intros HP. rewrite cleanupSchema_required_member. unfold filterRequired.
  by rewrite HP, andb_false_r.
Qed.

(** X17.  After cleanupSchema a schema whose type is "object" always has
    properties with at least one key: an absent or empty properties member
    has been replaced by the placeholder. *)
Theorem cleanupSchema_object_has_properties (schema : JSValue) :
  strict_equals (getProp schema "type") (JString "object") = true ->
  truthy (getProp (cleanupSchema schema) "properties") = true
  /\ Object_keys_empty (getProp (cleanupSchema schema) "properties") = false.
Proof. apply cleanupSchema_object_nonempty. Qed.

(** X18.  cleanupSchema changes no member of a schema other than required,
    properties and items: every other member (type, description, enum,
    ...) reads as before. *)
Theorem cleanupSchema_other_members (schema : JSValue) (name : string) :
  name <> "required" -> name <> "properties" -> name <> "items" ->
  getProp (cleanupSchema schema) name = getProp schema name.
Proof. apply cleanupSchema_other. Qed.

(** X19.  cleanupSchema cleans the nested schemas: when the properties
    member is an object with at least one key, each of its values is
    replaced by its clean-up under the same key; and an items member that
    is an object is replaced by its clean-up. *)
Theorem cleanupSchema_recurses (schema : JSValue) :
  (isObject (getProp schema "properties") = true ->
   Object_keys_empty (getProp schema "properties") = false ->
   getProp (cleanupSchema schema) "properties"
   = mapOwnValues cleanupSchema (getProp schema "properties"))
  /\ (isObject (getProp schema "items") = true ->
      getProp (cleanupSchema schema) "items" = cleanupSchema (getProp schema "items")).
Proof.
  split.
  - intros HP Hk. rewrite cleanupSchema_properties_member. cbv zeta.
    unfold injectPlaceholder.
    rewrite (getProp_filterRequired schema "type"),
            (getProp_filterRequired schema "properties") by done.
    assert (truthy (getProp schema "properties") = true) as Ht.
    { by apply isObject_cases in HP as [[props ->] | [items ->]]. }
    rewrite Ht, Hk. simpl. rewrite andb_false_r.
    by rewrite getProp_filterRequired, HP.
  - intros HI. by rewrite cleanupSchema_items_member, HI.
Qed.

(** X20.  In the result of cleanupSchema, every nested schema (a value of a
    properties object or an items member, at any depth) whose type is
    "object" has properties with at least one key. *)
Theorem cleanupSchema_nested_objects_have_properties (schema t : JSValue) :
  nestedSchema (cleanupSchema schema) t ->
  strict_equals (getProp t "type") (JString "object") = true ->
  truthy (getProp t "properties") = true
  /\ Object_keys_empty (getProp t "properties") = false.
Proof.
  intros [t0 ->]%nestedSchema_cleaned Htype.
  rewrite cleanupSchema_other in Htype by done.
  by apply cleanupSchema_object_nonempty.
Qed.

(** *** cleanupToolDefinitions *)

Lemma mapCompletion_normal {A B} (f : A -> Completion B) l ys :
  mapCompletion f l = Normal ys -> Forall2 (fun x y => f x = Normal y) l ys.
Proof.
  revert ys. induction l as [|x l IH]; simpl; intros ys.
  - intros [= <-]. constructor.
  - destruct (f x) as [y|e] eqn:Hx; [|done].
    destruct (mapCompletion f l) as [ys'|e]; [|done].
    intros [= <-]. constructor; [done | by apply IH].
Qed.



Lemma lookup_clone name props :
  lookup_prop name props <> JUndefined ->
  getProp (JSON_clone (JObject props)) name = JSON_clone (lookup_prop name props).
Proof.
  intros Hx. simpl. induction props as [|[k v] props IH]; simpl in *; [done|].
  destruct (String.eqb k name) eqn:E.
  - destruct v; try done; simpl; by rewrite E.
  - destruct v; simpl; rewrite ?E; by apply IH.
Qed.

Lemma getProp_clone v name :
  getProp v name <> JUndefined -> getProp (JSON_clone v) name = JSON_clone (getProp v name).
Proof. destruct v; try done. apply lookup_clone. Qed.

Lemma JSON_clone_plain props : exists props', JSON_clone (JObject props) = JObject props'.
Proof. simpl. by eexists. Qed.



(** X21.  cleanupToolDefinitions returns a value that is not an array as it
    is.  On an array it works entry by entry: a result has as many entries
    as the input, and an entry that is not a function tool (its type is not
    "function", or its function member is falsy) is returned unchanged in
    its place. *)
Theorem cleanupToolDefinitions_shape (tools : JSValue) :
  (Array_isArray tools = false -> cleanupToolDefinitions tools = Normal tools)
  /\ (forall cleaned,
        Array_isArray tools = true ->
        cleanupToolDefinitions tools = Normal cleaned ->
        Array_isArray cleaned = true
        /\ length (array_items cleaned) = length (array_items tools)
        /\ forall i tool, array_items tools !! i = Some tool ->
                          isFunctionTool tool = false ->
                          array_items cleaned !! i = Some tool).
Proof.
  unfold cleanupToolDefinitions. split.
  - by intros ->.
  - intros cleaned ->. simpl.
    destruct (mapCompletion cleanupTool (array_items tools)) as [out|e] eqn:Hmap; [|done].
    intros [= <-]. apply mapCompletion_normal in Hmap. simpl.
    split_and!; [done | symmetry; by eapply Forall2_length |].
    intros i tool Hi Hnot.
    destruct (Forall2_lookup_l _ _ _ i tool Hmap Hi) as (r & Hr & Hclean).
    rewrite Hr. f_equal. unfold cleanupTool in Hclean. unfold isFunctionTool in Hnot.
    rewrite <- negb_andb, Hnot in Hclean. simpl in Hclean. congruence.
Qed.


(** X23.  For a function tool whose function member is a plain object with
    an object as parameters, the entry that cleanupToolDefinitions returns
    still has type "function", and the parameters of its function member
    are the clean-up of a JSON copy of the original parameters. *)
Theorem cleanupToolDefinitions_cleans_parameters (tools cleaned : JSValue) (i : nat)
    (tool : JSValue) :
  Array_isArray tools = true ->
  cleanupToolDefinitions tools = Normal cleaned ->
  array_items tools !! i = Some tool ->
  strict_equals (getProp tool "type") (JString "function") = true ->
  isPlainObject (getProp tool "function") = true ->
  isObject (getProp (getProp tool "function") "parameters") = true ->
  exists r,
    array_items cleaned !! i = Some r
    /\ getProp r "type" = JString "function"
    /\ getProp (getProp r "function") "parameters"
       = cleanupSchema (JSON_clone (getProp (getProp tool "function") "parameters")).
Proof.
  unfold cleanupToolDefinitions. intros -> Hclean Hi Htype Hfn Hparams. simpl in Hclean.
  destruct (mapCompletion cleanupTool (array_items tools)) as [out|e] eqn:Hmap; [|done].
  injection Hclean as <-. apply mapCompletion_normal in Hmap.
  destruct (Forall2_lookup_l _ _ _ i tool Hmap Hi) as (r & Hr & Hrun).
  exists r. split; [done|].
  destruct (getProp tool "function") as [| |b|n|str|items|fprops] eqn:Hf; try done.
  assert (getProp tool "type" = JString "function") as Ht.
  { destruct (getProp tool "type"); try done. simpl in Htype.
    by apply String.eqb_eq in Htype as ->. }
  assert (getProp (JSON_clone tool) "function" = JSON_clone (JObject fprops)) as Hcf.
  { rewrite <- Hf. apply getProp_clone. by rewrite Hf. }
  assert (getProp (JSON_clone tool) "type" = JString "function") as Hct.
  { rewrite getProp_clone by (by rewrite Ht). by rewrite Ht. }
  assert (getProp (JSON_clone (JObject fprops)) "parameters"
          = JSON_clone (getProp (JObject fprops) "parameters")) as Hcp.
  { apply getProp_clone. by destruct (getProp (JObject fprops) "parameters"). }
  assert (truthy (JSON_clone (getProp (JObject fprops) "parameters")) = true) as Htruthy.
  { by apply isObject_cases in Hparams as [[pp ->] | [pp ->]]. }
  destruct (JSON_clone_plain fprops) as [cp Hcfp].
  assert (exists tp, JSON_clone tool = JObject tp) as [tp Htp].
  { destruct tool; try done. apply JSON_clone_plain. }
  unfold cleanupTool in Hrun. rewrite Htype, Hf, Hcf, Hcfp in Hrun.
  cbn [truthy negb orb] in Hrun. rewrite <- Hcfp, Hcp, Htruthy, Hcfp, Htp in Hrun.
  assert (r = setProp (JObject tp) "function"
                (setProp (JObject cp) "parameters"
                   (cleanupSchema (JSON_clone (getProp (JObject fprops) "parameters")))))
    as -> by congruence.
  split.
  - rewrite getProp_setProp_ne by done. by rewrite <- Htp.
  - by rewrite !getProp_setProp_eq.
Qed.

(** *** cleanupSchema: a second pass *)

Lemma cleanupSchema_placeholder_injected s :
  strict_equals (getProp s "type") (JString "object") = true ->
  truthy (getProp s "properties") = false ->
  getProp (cleanupSchema s) "properties" = placeholderProperties.
Proof.
  intros Htype Hp. rewrite cleanupSchema_properties_member. cbv zeta.
  unfold injectPlaceholder.
  rewrite (getProp_filterRequired s "type"), (getProp_filterRequired s "properties") by done.
  rewrite Htype, Hp. simpl.
  assert (isPlainObject (filterRequired s) = true) as Hplain.
  { rewrite isPlainObject_filterRequired. by destruct s. }
  destruct (filterRequired s) as [| |b|n|str|items|props]; try done.
  rewrite getProp_setProp_eq. simpl. unfold cleanupSchema.
  by rewrite cleanupSchema_fuel_placeholder.
Qed.

(** X24.  cleanupSchema is not idempotent.  On a schema of type "object"
    without a properties member and with a required array, one pass adds
    the placeholder property and leaves required as it is; a second pass
    then filters required against the placeholder and, unless an entry
    names the placeholder, deletes it. *)
Theorem cleanupSchema_second_pass (schema : JSValue) :
  strict_equals (getProp schema "type") (JString "object") = true ->
  truthy (getProp schema "properties") = false ->
  Array_isArray (getProp schema "required") = true ->
  (forall key, key ∈ array_items (getProp schema "required") ->
               propertyKey key <> "_placeholder") ->
  getProp (cleanupSchema schema) "required" = getProp schema "required"
  /\ getProp (cleanupSchema (cleanupSchema schema)) "required" = JUndefined.
Proof.
  intros Htype Hp Harr Hkeys.
  assert (isObject (getProp schema "properties") = false) as HP.
  { unfold isObject. by rewrite Hp. }
  assert (getProp (cleanupSchema schema) "required" = getProp schema "required") as H1.
  { rewrite cleanupSchema_required_member. unfold filterRequired.
    by rewrite HP, andb_false_r. }
  split; [done|].
  rewrite cleanupSchema_required_member. unfold filterRequired.
  rewrite H1, Harr, (cleanupSchema_placeholder_injected schema Htype Hp). simpl.
  assert (List.filter (fun key => String.eqb (propertyKey key) "_placeholder" || false)
            (array_items (getProp schema "required")) = []) as ->.
  { induction (array_items (getProp schema "required")) as [|k l IH]; simpl; [done|].
    destruct (String.eqb (propertyKey k) "_placeholder") eqn:E; simpl.
    - apply String.eqb_eq in E. destruct (Hkeys k); [apply list_elem_of_here | done].
    - apply IH. intros key Hin. apply Hkeys. by apply list_elem_of_further. }
  simpl.
  assert (isPlainObject (cleanupSchema schema) = true) as Hplain.
  { rewrite isPlainObject_cleanupSchema. by destruct schema. }
  destruct (cleanupSchema schema) as [| |b|n|str|items|props]; try done.
  apply lookup_delete_prop_eq.
Qed.

End Host.

(** ** The rotation manager: the rotation scenario *)

(** C5.  A manager holding two accounts, the active account 0 rate-limited
    until now + 60000 and account 1 with neither rateLimitResetTime nor
    coolingDownUntil, asked at a time [t] before that reset: getCurrentOrNext
    returns account 1, which becomes the active one, and getMinWaitTime is
    0. *)
Theorem rotation_scenario (now t : Z) (a0 a1 : AccountManager.Account) :
  AccountManager.rateLimitResetTime a0 = Some (now + 60000)%Z ->
  (t < now + 60000)%Z ->
  AccountManager.rateLimitResetTime a1 = None ->
  AccountManager.coolingDownUntil a1 = None ->
  let m := AccountManager.construct t None (Some (AccountManager.mkDocument [a0; a1] 0)) in
  let r := AccountManager.getCurrentOrNext t m in
  AccountManager.selected r
    = Some (AccountManager.activate t AccountManager.SwitchRateLimit a1)
  /\ AccountManager.getCurrentAccount (AccountManager.after r) = AccountManager.selected r
  /\ AccountManager.activeIndex (AccountManager.after r) = 1%nat
  /\ AccountManager.refreshToken <$> AccountManager.selected r
     = Some (AccountManager.refreshToken a1)
  /\ AccountManager.getMinWaitTime t m = 0%Z
  /\ AccountManager.getMinWaitTime t (AccountManager.after r) = 0%Z.
Proof.
  intros H0 Ht H1 H1'.
  assert ((now + 60000 <=? t)%Z = false) as Hleb by (apply Z.leb_gt; lia).
  destruct a0 as [id0 rt0 ad0 lu0 sr0 rl0 cd0 cr0], a1 as [id1 rt1 ad1 lu1 sr1 rl1 cd1 cr1].
  simpl in *. subst rl0 rl1 cd1.
  unfold AccountManager.getCurrentOrNext, AccountManager.getMinWaitTime,
    AccountManager.firstAvailable, AccountManager.scanOrder, AccountManager.getCurrentAccount,
    AccountManager.available, AccountManager.isRateLimited.
  simpl. repeat (rewrite Hleb; simpl). done.
Qed.

(** ** The audit script *)
Section AuditScript.

Import AuditDevAllowlist.

Variable String_of : JSValue -> string.

Lemma entryOf_None n d : entryOf n d = None <-> highOrCritical d = false.
Proof.
  unfold entryOf, highOrCritical, isObject.
  destruct (truthy d), (String.eqb (typeof d) "object"); simpl; try done.
  destruct (String.eqb (severityOf d) "high"), (String.eqb (severityOf d) "critical");
    simpl; done.
Qed.

Lemma entryOf_Some n d e :
  entryOf n d = Some e ->
  highOrCritical d = true
  /\ name e = n
  /\ severity e = severityOf d
  /\ via e = summarizeVia (getProp d "via")
  /\ fixAvailable e = match getProp d "fixAvailable" with
                      | JUndefined | JNull => JBool false
                      | v => v
                      end.
Proof.
  intros He. destruct (highOrCritical d) eqn:Hd.
  - unfold entryOf, highOrCritical, isObject in *.
    destruct (truthy d), (String.eqb (typeof d) "object"); simpl in *; try done.
    destruct (String.eqb (severityOf d) "high"), (String.eqb (severityOf d) "critical");
      simpl in *; try done; by injection He as <-.
  - apply (entryOf_None n) in Hd. congruence.
Qed.

Lemma entryOf_is_Some n d : highOrCritical d = true -> exists e, entryOf n d = Some e.
Proof.
  intros Hd. destruct (entryOf n d) as [e|] eqn:He; [by eexists|].
  apply entryOf_None in He. congruence.
Qed.

Lemma classify_fold l acc :
  foldl classifyStep acc l
  = mkLists (unexpected acc ++ omap unexpectedOf l) (allowlisted acc ++ omap allowlistedOf l).
Proof.
  revert acc. induction l as [|p l IH]; intros acc; simpl.
  - rewrite !app_nil_r. by destruct acc.
  - rewrite IH. unfold classifyStep, unexpectedOf, allowlistedOf, allowed.
    destruct (entryOf (fst p) (snd p)) as [e|];
      destruct (bool_decide (fst p ∈ ALLOWED_HIGH_OR_CRITICAL_PACKAGES)); simpl;
      by rewrite <- ?app_assoc.
Qed.

Lemma classify_passes v :
  classify v = mkLists (omap unexpectedOf (Object_entries v))
                       (omap allowlistedOf (Object_entries v)).
Proof. unfold classify. by rewrite classify_fold. Qed.

Lemma names_of_pass (keep : string -> bool) l :
  map name (omap (fun p => if keep (fst p) then entryOf (fst p) (snd p) else None) l)
  = List.filter keep (map fst (List.filter (fun p => highOrCritical (snd p)) l)).
Proof.
  induction l as [|[n d] l IH]; simpl; [done|].
  destruct (highOrCritical d) eqn:Hd; simpl.
  - destruct (keep n); simpl; [|done].
    destruct (entryOf_is_Some n d Hd) as [e He]. rewrite He. simpl.
    apply entryOf_Some in He as (_ & -> & _). f_equal. exact IH.
  - apply (entryOf_None n) in Hd. rewrite Hd. destruct (keep n); exact IH.
Qed.

Lemma reported_entry e v :
  e ∈ unexpected (classify v) ++ allowlisted (classify v) ->
  exists n d, (n, d) ∈ Object_entries v /\ entryOf n d = Some e.
Proof.
  rewrite classify_passes. simpl. intros [H | H]%elem_of_app;
    apply list_elem_of_omap in H as ([n d] & Hin & He); exists n, d; split; try done;
    unfold unexpectedOf, allowlistedOf in He; simpl in He; by destruct (allowed n).
Qed.




(** X25.  summarizeVia reports the first five items of [via], in order,
    and nothing of what follows them; a [via] that is not an array gives
    an empty list. *)
Theorem summarizeVia_first_five (via : JSValue) :
  length (summarizeVia via) = Nat.min 5 (length (array_items via))
  /\ forall i, (i < 5)%nat ->
               summarizeVia via !! i = summarizeItem <$> array_items via !! i.
Proof.
  unfold summarizeVia.
  destruct via as [| |b|n|s|items|props]; try done.
  cbn [Array_isArray negb array_items]. split.
  - by rewrite length_take, length_map, Nat.min_comm.
  - intros i Hi. rewrite lookup_take_lt by done. apply list_lookup_fmap.
Qed.

(** X26.  The loop sorts the vulnerabilities that are objects of severity
    "high" or "critical": the names on [unexpected] are those outside the
    allowlist and the names on [allowlisted] those inside it, each in the
    order of Object.entries.  Every entry on either list has severity
    "high" or "critical" and a fixAvailable that is neither undefined nor
    null. *)
Theorem classify_partition (vulnerabilities : JSValue) :
  let reported :=
    List.filter (fun p => highOrCritical (snd p)) (Object_entries vulnerabilities) in
  map name (unexpected (classify vulnerabilities))
  = List.filter (fun n => negb (allowed n)) (map fst reported)
  /\ map name (allowlisted (classify vulnerabilities))
     = List.filter allowed (map fst reported)
  /\ forall e, e ∈ unexpected (classify vulnerabilities)
                   ++ allowlisted (classify vulnerabilities) ->
                (severity e = "high" \/ severity e = "critical")
                /\ fixAvailable e <> JUndefined /\ fixAvailable e <> JNull.
Proof.
  cbv zeta. split_and!.
  - rewrite classify_passes. simpl.
    rewrite <- (names_of_pass (fun n => negb (allowed n))). f_equal.
    apply list_omap_ext, Forall_Forall2_diag, Forall_forall. intros [n d] _.
    unfold unexpectedOf. simpl. by destruct (allowed n).
  - rewrite classify_passes. simpl. by rewrite <- (names_of_pass allowed).
  - intros e (n & d & _ & He)%reported_entry.
    apply entryOf_Some in He as (Hd & _ & -> & _ & ->).
    unfold highOrCritical in Hd. apply andb_prop in Hd as [_ Hd]. split.
    + apply orb_prop in Hd as [Hd | Hd]; apply String.eqb_eq in Hd; auto.
    + by destruct (getProp d "fixAvailable").
Qed.



(** X29.  A parsed audit output without an object as its vulnerabilities
    member (an error report of npm, a number, null, ...) passes: the script
    prints nothing and runs to its end. *)
Theorem audit_passes_without_vulnerabilities (auditJson : JSValue) :
  isObject (getProp auditJson "vulnerabilities") = false ->
  audit String_of auditJson = mkRun [] Completed.
Proof.
  intros Hv. unfold audit, vulnerabilitiesOf.
  unfold isObject in Hv. rewrite <- andb_assoc, Hv, andb_false_r. done.
Qed.

End AuditScript.

(** ** The statements at work on the sample data *)

Lemma deduplicateAccounts_keeps_newest_witness :
  Forall (fun r => isAccountMetadataV1 r = true) sample_accounts
  /\ sample_accounts !! 0%nat = Some (sample_account (Some "acct-1") "token-a" 1 5)
  /\ truthy (identityKey (sample_account (Some "acct-1") "token-a" 1 5)) = true
  /\ exists w aw,
       sample_accounts !! w = Some aw
       /\ sameKey (sample_account (Some "acct-1") "token-a" 1 5) aw = true
       /\ List.filter (sameKey (sample_account (Some "acct-1") "token-a" 1 5))
            (deduplicateAccounts sample_lessThan sample_accounts) = [aw]
       /\ forall j b, sample_accounts !! j = Some b ->
            sameKey (sample_account (Some "acct-1") "token-a" 1 5) b = true ->
            j <> w -> older b j aw w.
Proof.
  split; [repeat constructor|]. split; [reflexivity|]. split; [reflexivity|].
  apply (deduplicateAccounts_keeps_newest sample_lessThan sample_accounts 0
           (sample_account (Some "acct-1") "token-a" 1 5));
    [repeat constructor | reflexivity | reflexivity].
Defined.

Example deduplicateAccounts_sample :
  deduplicateAccounts sample_lessThan sample_accounts
  = [ sample_account None "token-b" 2 2; sample_account (Some "acct-1") "token-d" 1 7 ].
Proof. vm_compute. reflexivity. Qed.

Lemma loadAccounts_records_have_string_token_witness :
  let parse := sample_parse (sample_document 1 [sample_empty_token; sample_account None "token-b" 2 2]
                                             (JNumber (Finite 0))) in
  let w := sample_world "stored text" in
  let a := sample_account None "token-b" 2 2 in
  exists st,
    fst (loadAccounts sample_lessThan parse sample_home w) = Normal (Some st)
    /\ a ∈ accounts st
    /\ is_string (getProp a "refreshToken") = true
    /\ (truthy (getProp a "accountId") = false -> truthy (getProp a "refreshToken") = true)
    /\ (forall content data,
          readOutcome sample_home w = Normal content -> parse content = Some data ->
          accounts st `sublist_of` array_items (getProp data "accounts"))
    /\ log (snd (loadAccounts sample_lessThan parse sample_home w)) = log w.
Proof.
  intros parse w a.
  exists (mkStorage (Finite 1) [sample_empty_token; a] (Finite 0)).
  assert (fst (loadAccounts sample_lessThan parse sample_home w)
          = Normal (Some (mkStorage (Finite 1) [sample_empty_token; a] (Finite 0)))) as Hload
    by (vm_compute; reflexivity).
  assert (a ∈ accounts (mkStorage (Finite 1) [sample_empty_token; a] (Finite 0))) as Hin
    by (simpl; apply list_elem_of_further, list_elem_of_here).
  split; [exact Hload|]. split; [exact Hin|].
  exact (loadAccounts_records_have_string_token sample_lessThan parse sample_home w _ a Hload Hin).
Defined.

(** C3 as stated fails: a stored record with an accountId and an empty
    refreshToken passes the filter (its refreshToken is a string) and has a
    usable key, so loadAccounts returns it. *)
Lemma loadAccounts_keeps_empty_refreshToken :
  ~ (forall (lessThanCoerced : JSValue -> JSValue -> option bool)
            (JSON_parse : string -> option JSValue) (homedir : path)
            (w : World) (st : AccountStorageV1) (a : JSValue),
        fst (loadAccounts lessThanCoerced JSON_parse homedir w) = Normal (Some st) ->
        a ∈ accounts st ->
        exists s, getProp a "refreshToken" = JString s /\ s <> "").
Proof.
  intros H.
  destruct (H sample_lessThan
              (sample_parse (sample_document 1 [sample_empty_token] (JNumber (Finite 0))))
              sample_home (sample_world "stored text")
              (mkStorage (Finite 1) [sample_empty_token] (Finite 0))
              sample_empty_token) as (s & Hs & Hne).
  - vm_compute. reflexivity.
  - simpl. apply list_elem_of_here.
  - simpl in Hs. injection Hs as <-. by apply Hne.
Qed.

Example loadAccounts_sample_empty_token :
  fst (loadAccounts sample_lessThan
         (sample_parse (sample_document 1 [sample_empty_token] (JNumber (Finite 0))))
         sample_home (sample_world "stored text"))
  = Normal (Some (mkStorage (Finite 1) [sample_empty_token] (Finite 0))).
Proof. vm_compute. reflexivity. Qed.

Lemma loadAccounts_activeIndex_clamped_witness :
  let parse := sample_parse (sample_document 1 sample_accounts (JNumber (Finite 7))) in
  let w := sample_world "stored text" in
  exists st,
    fst (loadAccounts sample_lessThan parse sample_home w) = Normal (Some st)
    /\ activeIndex st = Finite 1
    /\ (accounts st <> [] ->
         num_le (Finite 0) (activeIndex st)
         /\ num_le (activeIndex st) (number_of_Z (Z.of_nat (length (accounts st)) - 1)))
    /\ (accounts st = [] -> activeIndex st = Finite 0)
    /\ (forall content data,
          readOutcome sample_home w = Normal content -> parse content = Some data ->
          readableIndex (getProp data "activeIndex") = false ->
          activeIndex st = Finite 0).
Proof.
  intros parse w.
  exists (mkStorage (Finite 1)
            [sample_account None "token-b" 2 2; sample_account (Some "acct-1") "token-d" 1 7]
            (Finite 1)).
  assert (fst (loadAccounts sample_lessThan parse sample_home w)
          = Normal (Some (mkStorage (Finite 1)
                            [sample_account None "token-b" 2 2;
                             sample_account (Some "acct-1") "token-d" 1 7]
                            (Finite 1)))) as Hload
    by (vm_compute; reflexivity).
  split; [exact Hload|]. split; [reflexivity|].
  exact (loadAccounts_activeIndex_clamped sample_lessThan parse sample_home w _ Hload).
Defined.

Lemma loadAccounts_rejects_other_versions_witness :
  let data := sample_document 2 sample_accounts (JNumber (Finite 0)) in
  let w := sample_world "stored text" in
  readOutcome sample_home w = Normal "stored text"
  /\ sample_parse data "stored text" = Some data
  /\ getProp data "accounts" = JArray sample_accounts
  /\ strict_equals (getProp data "version") (JNumber (Finite 1)) = false
  /\ loadAccounts sample_lessThan (sample_parse data) sample_home w
     = (Normal None,
        add_log (LogWarn "Unknown storage version, ignoring" (Some (JNumber (number_of_Z 2)))) w).
Proof.
  intros data w.
  assert (readOutcome sample_home w = Normal "stored text") as Hread by (vm_compute; reflexivity).
  assert (sample_parse data "stored text" = Some data) as Hparse by reflexivity.
  assert (getProp data "accounts" = JArray sample_accounts) as Hacc by reflexivity.
  assert (strict_equals (getProp data "version") (JNumber (Finite 1)) = false) as Hver
    by reflexivity.
  split; [exact Hread|]. split; [exact Hparse|]. split; [exact Hacc|]. split; [exact Hver|].
  exact (loadAccounts_rejects_other_versions sample_lessThan (sample_parse data) sample_home w
           "stored text" data sample_accounts Hread Hparse Hacc Hver).
Defined.

Lemma rotation_scenario_witness :
  let a0 := sample_rotation_account "token-1" (Some 61000%Z) in
  let a1 := sample_rotation_account "token-2" None in
  let m := AccountManager.construct 1000 None (Some (AccountManager.mkDocument [a0; a1] 0)) in
  let r := AccountManager.getCurrentOrNext 1000 m in
  AccountManager.rateLimitResetTime a0 = Some (1000 + 60000)%Z
  /\ (1000 < 1000 + 60000)%Z
  /\ AccountManager.refreshToken <$> AccountManager.selected r = Some "token-2"
  /\ AccountManager.getMinWaitTime 1000 m = 0%Z.
Proof.
  intros a0 a1 m r.
  assert (AccountManager.rateLimitResetTime a0 = Some (1000 + 60000)%Z) as H0 by reflexivity.
  assert (1000 < 1000 + 60000)%Z as Ht by lia.
  split; [exact H0|]. split; [exact Ht|].
  pose proof (rotation_scenario 1000 1000 a0 a1 H0 Ht eq_refl eq_refl) as H.
  split; [exact (proj1 (proj2 (proj2 (proj2 H)))) | exact (proj1 (proj2 (proj2 (proj2 (proj2 H)))))].
Defined.

(** The I/O statements on concrete worlds. *)
Lemma loadAccounts_never_throws_witness :
  loadAccounts sample_lessThan (sample_parse JNull) sample_home empty_world
  = (Normal None, empty_world)
  /\ loadAccounts sample_lessThan (sample_parse JNull) sample_home
       (sample_faulty_world reject_reads)
     = (Normal None,
        add_log (LogError "Failed to load account storage" (ErrnoException "EACCES"))
                (sample_faulty_world reject_reads))
  /\ loadAccounts sample_lessThan (fun _ => None) sample_home (sample_world "stored text")
     = (Normal None,
        add_log (LogError "Failed to load account storage" SyntaxError)
                (sample_world "stored text")).
Proof.
  split; [|split].
  - destruct (loadAccounts_never_throws sample_lessThan (sample_parse JNull) sample_home
                empty_world) as (_ & Hmissing & _ & _).
    apply Hmissing; [reflexivity | vm_compute; reflexivity].
  - destruct (loadAccounts_never_throws sample_lessThan (sample_parse JNull) sample_home
                (sample_faulty_world reject_reads)) as (_ & _ & Hrejected & _).
    apply Hrejected; [reflexivity | discriminate].
  - destruct (loadAccounts_never_throws sample_lessThan (fun _ => None) sample_home
                (sample_world "stored text")) as (_ & _ & _ & Hparse & _).
    apply (Hparse "stored text"); [vm_compute; reflexivity | reflexivity].
Defined.

Lemma saveAccounts_writes_or_throws_witness :
  let stringify : AccountStorageV1 -> nat -> string := fun _ _ => "text of the document" in
  let storage := mkStorage (Finite 1) [] (Finite 0) in
  (exists w',
      saveAccounts stringify sample_home storage empty_world = (Normal tt, w')
      /\ files w' = <[getStoragePath sample_home := "text of the document"]> (files empty_world)
      /\ dirname (getStoragePath sample_home) ∈ dirs w'
      /\ log w' = log empty_world)
  /\ fst (saveAccounts stringify sample_home storage (sample_faulty_world reject_writes))
     = Throw (ErrnoException "ENOSPC")
  /\ files (snd (saveAccounts stringify sample_home storage (sample_faulty_world reject_writes)))
     = files (sample_faulty_world reject_writes).
Proof.
  intros stringify storage. split.
  - destruct (saveAccounts_writes_or_throws stringify sample_home storage empty_world)
      as (Hwritten & _ & _).
    apply Hwritten; reflexivity.
  - destruct (saveAccounts_writes_or_throws stringify sample_home storage
                (sample_faulty_world reject_writes)) as (_ & Hrejected & _).
    apply (Hrejected "ENOSPC"); reflexivity.
Defined.

Lemma clearAccounts_never_raises_witness :
  let once := snd (clearAccounts sample_home (sample_world "stored text")) in
  clearAccounts sample_home once = (Normal tt, once)
  /\ clearAccounts sample_home empty_world = (Normal tt, empty_world)
  /\ clearAccounts sample_home (sample_faulty_world reject_unlinks)
     = (Normal tt,
        add_log (LogError "Failed to clear account storage" (ErrnoException "EPERM"))
                (sample_faulty_world reject_unlinks)).
Proof.
  intros once. split; [|split].
  - destruct (clearAccounts_never_raises sample_home (sample_world "stored text"))
      as (_ & _ & _ & Htwice & _).
    apply Htwice. reflexivity.
  - destruct (clearAccounts_never_raises sample_home empty_world) as (_ & Habsent & _).
    apply Habsent; [reflexivity | vm_compute; reflexivity].
  - destruct (clearAccounts_never_raises sample_home (sample_faulty_world reject_unlinks))
      as (_ & _ & _ & _ & Hrejected & _).
    apply (Hrejected "EPERM"); [reflexivity | discriminate].
Defined.

Example loadAccounts_missing_file :
  loadAccounts sample_lessThan (fun _ => None) sample_home empty_world
  = (Normal None, empty_world).
Proof. vm_compute. reflexivity. Qed.

Example loadAccounts_null_document :
  loadAccounts sample_lessThan (sample_parse JNull) sample_home (sample_world "stored text")
  = (Normal None,
     add_log (LogError "Failed to load account storage" TypeError) (sample_world "stored text")).
Proof. vm_compute. reflexivity. Qed.

Example saveAccounts_fresh_directory :
  let w' := snd (saveAccounts (fun _ _ => "text of the document") sample_home
                              (mkStorage (Finite 1) [] (Finite 0)) empty_world) in
  files w' !! sample_path = Some "text of the document"
  /\ bool_decide (dirname sample_path ∈ dirs w') = true.
Proof. split; vm_compute; reflexivity. Qed.

Example clearAccounts_twice :
  let once := snd (clearAccounts sample_home (sample_world "stored text")) in
  files once !! sample_path = None
  /\ clearAccounts sample_home once = (Normal tt, once).
Proof. split; vm_compute; reflexivity. Qed.

(** The further properties on the sample data. *)
Lemma deduplicateAccounts_keys_unique_witness :
  (0 < 1)%nat
  /\ deduplicateAccounts sample_lessThan sample_accounts !! 0%nat
     = Some (sample_account None "token-b" 2 2)
  /\ deduplicateAccounts sample_lessThan sample_accounts !! 1%nat
     = Some (sample_account (Some "acct-1") "token-d" 1 7)
  /\ sameKey (sample_account None "token-b" 2 2)
             (sample_account (Some "acct-1") "token-d" 1 7) = false.
Proof.
  assert (deduplicateAccounts sample_lessThan sample_accounts !! 0%nat
          = Some (sample_account None "token-b" 2 2)) as H0 by (vm_compute; reflexivity).
  assert (deduplicateAccounts sample_lessThan sample_accounts !! 1%nat
          = Some (sample_account (Some "acct-1") "token-d" 1 7)) as H1
    by (vm_compute; reflexivity).
  split; [lia|]. split; [exact H0|]. split; [exact H1|].
  exact (deduplicateAccounts_keys_unique sample_lessThan sample_accounts 0 1 _ _
           (Nat.lt_0_1) H0 H1).
Defined.

Lemma deduplicateAccounts_fixed_point_witness :
  deduplicateAccounts sample_lessThan sample_survivors = sample_survivors.
Proof.
  apply deduplicateAccounts_fixed_point.
  - intros a Ha. unfold sample_survivors in Ha.
    apply elem_of_cons in Ha as [-> | Ha]; [split; reflexivity|].
    apply elem_of_cons in Ha as [-> | Ha]; [split; reflexivity|].
    by apply elem_of_nil in Ha.
  - intros i j a b Hij Ha Hb.
    destruct i as [|[|i]], j as [|[|j]]; simpl in Ha, Hb; try lia; try discriminate.
    injection Ha as <-. injection Hb as <-. reflexivity.
Defined.

Lemma deduplicateAccounts_drops_unusable_witness :
  sample_account None "token-b" 2 2 ∈ deduplicateAccounts sample_lessThan sample_accounts
  /\ truthy (sample_account None "token-b" 2 2) = true
  /\ truthy (identityKey (sample_account None "token-b" 2 2)) = true.
Proof.
  assert (sample_account None "token-b" 2 2
          ∈ deduplicateAccounts sample_lessThan sample_accounts) as Hin.
  { replace (deduplicateAccounts sample_lessThan sample_accounts) with sample_survivors
      by (vm_compute; reflexivity).
    apply list_elem_of_here. }
  split; [exact Hin|].
  exact (deduplicateAccounts_drops_unusable sample_lessThan sample_accounts _ Hin).
Defined.

Lemma deduplicateAccounts_keeps_every_key_witness :
  exists b, b ∈ deduplicateAccounts sample_lessThan sample_accounts
            /\ sameKey (sample_account (Some "acct-1") "token-a" 1 5) b = true.
Proof.
  apply deduplicateAccounts_keeps_every_key;
    [apply list_elem_of_here | reflexivity | reflexivity | reflexivity].
Defined.

Lemma selectNewestAccount_choice_witness :
  selectNewestAccount sample_lessThan
    (Some (0%nat, sample_account (Some "acct-1") "token-a" 1 5))
    (2%nat, sample_account (Some "acct-1") "token-c" 1 7)
  = (2%nat, sample_account (Some "acct-1") "token-c" 1 7)
  /\ selectNewestAccount sample_lessThan
       (Some (2%nat, sample_account (Some "acct-1") "token-c" 1 7))
       (0%nat, sample_account (Some "acct-1") "token-a" 1 5)
     = (2%nat, sample_account (Some "acct-1") "token-c" 1 7).
Proof.
  split.
  - destruct (selectNewestAccount_choice sample_lessThan 0 2
                (sample_account (Some "acct-1") "token-a" 1 5)
                (sample_account (Some "acct-1") "token-c" 1 7) eq_refl eq_refl)
      as (_ & _ & Hnewer).
    apply Hnewer. left. reflexivity.
  - destruct (selectNewestAccount_choice sample_lessThan 2 0
                (sample_account (Some "acct-1") "token-c" 1 7)
                (sample_account (Some "acct-1") "token-a" 1 5) eq_refl eq_refl)
      as (_ & Holder & _).
    apply Holder. left. reflexivity.
Defined.

Lemma loadAccounts_rejects_non_list_witness :
  let data := JObject [("version", JNumber (Finite 1)); ("accounts", JString "none")] in
  let w := sample_world "stored text" in
  loadAccounts sample_lessThan (sample_parse data) sample_home w
  = (Normal None, add_log (LogWarn "Invalid storage format, ignoring" None) w).
Proof.
  intros data w.
  apply (loadAccounts_rejects_non_list sample_lessThan (sample_parse data) sample_home w
           "stored text" data);
    [vm_compute; reflexivity | reflexivity | discriminate | discriminate | reflexivity].
Defined.

Lemma loadAccounts_keys_unique_witness :
  let parse := sample_parse (sample_document 1 sample_accounts (JNumber (Finite 7))) in
  let w := sample_world "stored text" in
  fst (loadAccounts sample_lessThan parse sample_home w) = Normal (Some sample_storage)
  /\ version sample_storage = Finite 1
  /\ forall i j a b, (i < j)%nat ->
       accounts sample_storage !! i = Some a -> accounts sample_storage !! j = Some b ->
       sameKey a b = false.
Proof.
  intros parse w.
  assert (fst (loadAccounts sample_lessThan parse sample_home w) = Normal (Some sample_storage))
    as Hload by (vm_compute; reflexivity).
  split; [exact Hload|].
  exact (loadAccounts_keys_unique sample_lessThan parse sample_home w sample_storage Hload).
Defined.

Lemma loadAccounts_activeIndex_exact_witness :
  let data := sample_document 1 sample_accounts (JNumber (Finite 7)) in
  let w := sample_world "stored text" in
  num_eq (activeIndex sample_storage)
         (number_of_Z (Z.of_nat (length (accounts sample_storage)) - 1)).
Proof.
  intros data w.
  assert (fst (loadAccounts sample_lessThan (sample_parse data) sample_home w)
          = Normal (Some sample_storage)) as Hload by (vm_compute; reflexivity).
  assert (readOutcome sample_home w = Normal "stored text") as Hread
    by (vm_compute; reflexivity).
  destruct (loadAccounts_activeIndex_exact sample_lessThan (sample_parse data) sample_home w
              sample_storage "stored text" data 7 Hload Hread eq_refl eq_refl)
    as (_ & _ & Hbeyond); [discriminate|].
  apply Hbeyond. reflexivity.
Defined.

Lemma save_then_load_witness :
  let w := sample_world "stored text" in
  let saved := snd (saveAccounts sample_stringify sample_home sample_storage w) in
  loadAccounts sample_lessThan sample_storage_parse sample_home saved
  = (Normal (Some sample_storage), saved).
Proof.
  intros w saved.
  apply (save_then_load sample_lessThan sample_storage_parse sample_stringify sample_home w
           sample_storage);
    [vm_compute; reflexivity | reflexivity | reflexivity | reflexivity | reflexivity].
Defined.

Lemma clear_then_load_witness :
  let w := sample_world "stored text" in
  let cleared := snd (clearAccounts sample_home w) in
  loadAccounts sample_lessThan sample_storage_parse sample_home cleared
  = (Normal None, cleared).
Proof.
  intros w cleared.
  apply (clear_then_load sample_lessThan sample_storage_parse sample_home w); reflexivity.
Defined.

Lemma saveAccounts_last_write_wins_witness :
  let first := mkStorage (Finite 1) [] (Finite 0) in
  saveAccounts sample_stringify sample_home sample_storage
    (snd (saveAccounts sample_stringify sample_home first empty_world))
  = saveAccounts sample_stringify sample_home sample_storage empty_world.
Proof.
  intros first.
  apply (saveAccounts_last_write_wins sample_stringify sample_home first sample_storage
           empty_world); reflexivity.
Defined.

(** The clean-up of tool definitions on the sample data. *)
Example cleanupToolDefinitions_sample :
  cleanupToolDefinitions sample_toString (JArray [sample_tool; JNull])
  = Normal (JArray [sample_cleaned_tool; JNull]).
Proof. vm_compute. reflexivity. Qed.

Example cleanupToolDefinitions_infinite_function :
  cleanupToolDefinitions sample_toString
    (JArray [JObject [("type", JString "function"); ("function", JNumber PosInfinity)]])
  = Throw TypeError.
Proof. vm_compute. reflexivity. Qed.

Lemma cleanupSchema_required_defined_witness :
  hasOwnProperty (getProp (cleanupSchema sample_toString sample_schema) "properties")
    (propertyKey sample_toString (JString "path")) = true.
Proof.
  apply cleanupSchema_required_defined; [reflexivity|].
  replace (array_items (getProp (cleanupSchema sample_toString sample_schema) "required"))
    with [JString "path"] by (vm_compute; reflexivity).
  apply list_elem_of_here.
Defined.

Lemma cleanupSchema_required_untouched_witness :
  getProp (cleanupSchema sample_toString sample_bare_schema) "required"
  = getProp sample_bare_schema "required".
Proof. apply cleanupSchema_required_untouched. reflexivity. Defined.

Lemma cleanupSchema_object_has_properties_witness :
  truthy (getProp (cleanupSchema sample_toString sample_bare_schema) "properties") = true
  /\ Object_keys_empty
       (getProp (cleanupSchema sample_toString sample_bare_schema) "properties") = false.
Proof. apply cleanupSchema_object_has_properties. reflexivity. Defined.

Lemma cleanupSchema_other_members_witness :
  getProp (cleanupSchema sample_toString sample_schema) "description"
  = JString "Arguments of the read tool".
Proof.
  rewrite (cleanupSchema_other_members sample_toString sample_schema "description");
    [reflexivity | discriminate | discriminate | discriminate].
Defined.

Lemma cleanupSchema_nested_objects_have_properties_witness :
  let options :=
    getProp (getProp (cleanupSchema sample_toString sample_schema) "properties") "options" in
  strict_equals (getProp options "type") (JString "object") = true
  /\ truthy (getProp options "properties") = true
  /\ Object_keys_empty (getProp options "properties") = false.
Proof.
  cbv zeta. split; [vm_compute; reflexivity|].
  apply (cleanupSchema_nested_objects_have_properties sample_toString sample_schema);
    [|vm_compute; reflexivity].
  apply (nested_property _ (cleanupSchema sample_toString sample_schema));
    [apply nested_root | vm_compute; reflexivity |].
  replace (ownValues (getProp (cleanupSchema sample_toString sample_schema) "properties"))
    with [JObject [("type", JString "string")];
          getProp (getProp (cleanupSchema sample_toString sample_schema) "properties")
            "options"]
    by (vm_compute; reflexivity).
  apply list_elem_of_further, list_elem_of_here.
Defined.

Lemma cleanupToolDefinitions_cleans_parameters_witness :
  exists r,
    array_items (JArray [sample_cleaned_tool; JNull]) !! 0%nat = Some r
    /\ getProp r "type" = JString "function"
    /\ getProp (getProp r "function") "parameters"
       = cleanupSchema sample_toString
           (JSON_clone (getProp (getProp sample_tool "function") "parameters")).
Proof.
  apply (cleanupToolDefinitions_cleans_parameters sample_toString
           (JArray [sample_tool; JNull]) (JArray [sample_cleaned_tool; JNull]) 0 sample_tool);
    (reflexivity || (vm_compute; reflexivity)).
Defined.

Lemma cleanupSchema_second_pass_witness :
  getProp (cleanupSchema sample_toString sample_bare_schema) "required"
  = getProp sample_bare_schema "required"
  /\ getProp (cleanupSchema sample_toString
                (cleanupSchema sample_toString sample_bare_schema)) "required"
     = JUndefined.
Proof.
  apply cleanupSchema_second_pass; [reflexivity | reflexivity | reflexivity |].
  intros key Hin. simpl in Hin.
  apply elem_of_cons in Hin as [-> | Hin]; [discriminate | by apply elem_of_nil in Hin].
Defined.

(** The audit script on the sample data. *)
Example audit_allowlisted_sample :
  AuditDevAllowlist.audit sample_toString (sample_audit "eslint")
  = AuditDevAllowlist.mkRun
      [ AuditDevAllowlist.console_warn
          "Allowlisted high/critical dev vulnerabilities detected:";
        AuditDevAllowlist.console_warn "- eslint (high) via ajv fixAvailable=false";
        AuditDevAllowlist.console_warn
          "No unexpected high/critical vulnerabilities found." ]
      AuditDevAllowlist.Completed.
Proof. vm_compute. reflexivity. Qed.

Example audit_unexpected_sample :
  AuditDevAllowlist.audit sample_toString (sample_audit "lodash")
  = AuditDevAllowlist.mkRun
      [ AuditDevAllowlist.console_error
          "Unexpected high/critical vulnerabilities detected in dev dependency audit:";
        AuditDevAllowlist.console_error "- lodash (high) via ajv fixAvailable=false" ]
      (AuditDevAllowlist.ProcessExit 1).
Proof. vm_compute. reflexivity. Qed.

Lemma audit_passes_without_vulnerabilities_witness :
  AuditDevAllowlist.audit sample_toString sample_audit_error
  = AuditDevAllowlist.mkRun [] AuditDevAllowlist.Completed.
Proof. apply audit_passes_without_vulnerabilities. reflexivity. Defined.
